(** * codepen-puppeteer: the pen acquisition pipeline

    A shallow embedding of [index.js] and of the [run] module (the
    parameterised copy of the same script): the filename normaliser
    [titleToFilename], the template substitutions built on
    [String.prototype.replace], and the download loop with its skip policy
    and index regeneration.

    JavaScript strings are sequences of UTF-16 code units; a code unit is
    modelled as an [N] and a string as a [list N].  The file system is a
    finite map from paths to file contents. *)

From Stdlib Require Import NArith ZArith Ascii String.
From stdpp Require Import base list gmap.

Local Open Scope N_scope.

(** ** Strings as code-unit sequences *)

Abbreviation jsstring := (list N).

(** The code units of an ASCII literal. *)
Definition cus (s : string) : jsstring :=
  map N_of_ascii (list_ascii_of_string s).

Definition DASH : N := 45.
Definition DOLLAR : N := 36.
Definition AMP : N := 38.
Definition APOS : N := 39.
Definition BACKTICK : N := 96.
Definition QUOTE : N := 34.
Definition NEWLINE : N := 10.

Definition is_nil {A} (l : list A) : bool :=
  match l with [] => true | _ => false end.

(** ECMAScript [WhiteSpace] and [LineTerminator] code points, the set that
    [String.prototype.trim] strips.  All of them are in the basic plane, so
    the test on one code unit is exact. *)
Definition isWhiteSpace (c : N) : bool :=
  ((9 <=? c) && (c <=? 13)) || (c =? 32) || (c =? 160) || (c =? 5760)
  || ((8192 <=? c) && (c <=? 8202)) || (c =? 8232) || (c =? 8233)
  || (c =? 8239) || (c =? 8287) || (c =? 12288) || (c =? 65279).

(** The class [[a-z0-9]] under the [i] flag: without the [u] flag the
    canonicalisation never maps a code unit above 127 to an ASCII one, so
    the class is exactly [[A-Za-z0-9]]. *)
Definition isAlnum (c : N) : bool :=
  ((48 <=? c) && (c <=? 57)) || ((65 <=? c) && (c <=? 90))
  || ((97 <=? c) && (c <=? 122)).

Definition isDash (c : N) : bool := c =? DASH.

(** [toLowerCase] on one code unit.  Only the ASCII letters are mapped: at
    its single call site the receiver is a string over [[A-Za-z0-9-]]
    (lemma [toLowerCase_receiver]). *)
Definition lower (c : N) : N :=
  if (65 <=? c) && (c <=? 90) then c + 32 else c.

Definition toLowerCase (s : jsstring) : jsstring := map lower s.

(** [String.prototype.trim]. *)
Fixpoint trimStart (s : jsstring) : jsstring :=
  match s with
  | [] => []
  | c :: r => if isWhiteSpace c then trimStart r else s
  end.

Fixpoint trimEnd (s : jsstring) : jsstring :=
  match s with
  | [] => []
  | c :: r =>
      match trimEnd r with
      | [] => if isWhiteSpace c then [] else [c]
      | r' => c :: r'
      end
  end.

Definition trim (s : jsstring) : jsstring := trimEnd (trimStart s).

(** ** The filename normaliser *)

Module Normalizer.

(** [.replace(/[^a-z0-9]/gi, '-')]: every code unit outside the class is
    one match, replaced by a dash. *)
Definition replace_non_alnum (s : jsstring) : jsstring :=
  map (fun c => if isAlnum c then c else DASH) s.

(** [.replace(/-+/g, '-')]: the scan emits one dash when it enters a run of
    dashes and consumes the rest of the run; [in_run] records that the
    previous code unit was part of the current match. *)
Fixpoint replace_dash_runs_from (in_run : bool) (s : jsstring) : jsstring :=
  match s with
  | [] => []
  | c :: r =>
      if isDash c
      then (if in_run then replace_dash_runs_from true r
            else DASH :: replace_dash_runs_from true r)
      else c :: replace_dash_runs_from false r
  end.

Definition replace_dash_runs (s : jsstring) : jsstring :=
  replace_dash_runs_from false s.

(** [.replace(/-$|^-/g, '')]: without the [m] flag [^] matches at index 0
    only and [$] at the end of the input only.  At each position the
    alternative [-$] is tried first, then [^-]; a match is deleted and the
    scan goes on after it. *)
Fixpoint strip_edge_dashes_from (at_start : bool) (s : jsstring) : jsstring :=
  match s with
  | [] => []
  | c :: r =>
      if isDash c && (is_nil r || at_start)
      then strip_edge_dashes_from false r
      else c :: strip_edge_dashes_from false r
  end.

Definition strip_edge_dashes (s : jsstring) : jsstring :=
  strip_edge_dashes_from true s.

End Normalizer.

(** [titleToFilename], the same in both scripts. *)
Definition titleToFilename (string : jsstring) : jsstring :=
  trim
    (toLowerCase
       (Normalizer.strip_edge_dashes
          (Normalizer.replace_dash_runs
             (Normalizer.replace_non_alnum
                (trim string))))).

(** *** The normaliser as the specification words it *)

Module NormalizeSpec.

(** Replace every maximal run of characters outside [[A-Za-z0-9]] with a
    single dash: a character of a run is dropped unless it is the last one
    of its run, which becomes the dash. *)
Fixpoint collapse_runs (s : jsstring) : jsstring :=
  match s with
  | [] => []
  | c :: r =>
      if isAlnum c then c :: collapse_runs r
      else match r with
           | [] => [DASH]
           | d :: _ => if isAlnum d then DASH :: collapse_runs r
                       else collapse_runs r
           end
  end.

Definition strip_leading (s : jsstring) : jsstring :=
  match s with
  | c :: r => if isDash c then r else s
  | [] => []
  end.

Fixpoint strip_trailing (s : jsstring) : jsstring :=
  match s with
  | [] => []
  | [c] => if isDash c then [] else [c]
  | c :: r => c :: strip_trailing r
  end.

Definition normalize (s : jsstring) : jsstring :=
  toLowerCase (strip_trailing (strip_leading (collapse_runs (trim s)))).

End NormalizeSpec.

(** ** [String.prototype.replace] with a string pattern *)

Fixpoint starts_with (pat s : jsstring) : bool :=
  match pat, s with
  | [], _ => true
  | _ :: _, [] => false
  | p :: pat', c :: s' => (p =? c) && starts_with pat' s'
  end.

(** [indexOf(searchString)] from position 0; [None] stands for [-1]. *)
Fixpoint indexOf (pat s : jsstring) : option nat :=
  if starts_with pat s then Some 0%nat
  else match s with
       | [] => None
       | _ :: r => S <$> indexOf pat r
       end.

(** [GetSubstitution] for a match without capture groups: in the
    replacement text [$$] is a dollar, [$&] the matched text, [$`] the text
    before the match and [$'] the text after it; any other dollar, also one
    before a digit or [<], stands for itself. *)
Fixpoint GetSubstitution (matched str : jsstring) (position : nat)
    (replacement : jsstring) : jsstring :=
  match replacement with
  | [] => []
  | c :: r =>
      if c =? DOLLAR then
        match r with
        | [] => [c]
        | d :: r' =>
            if d =? DOLLAR then
              DOLLAR :: GetSubstitution matched str position r'
            else if d =? AMP then
              matched ++ GetSubstitution matched str position r'
            else if d =? BACKTICK then
              take position str ++ GetSubstitution matched str position r'
            else if d =? APOS then
              drop (position + length matched) str
                ++ GetSubstitution matched str position r'
            else c :: GetSubstitution matched str position r
        end
      else c :: GetSubstitution matched str position r
  end.

(** [str.replace(searchValue, replaceValue)] with both arguments strings:
    only the first occurrence is replaced. *)
Definition String_replace (str searchValue replaceValue : jsstring) : jsstring :=
  match indexOf searchValue str with
  | None => str
  | Some pos =>
      take pos str
        ++ GetSubstitution searchValue str pos replaceValue
        ++ drop (pos + length searchValue) str
  end.

(** [Array.prototype.join]. *)
Fixpoint join (sep : jsstring) (l : list jsstring) : jsstring :=
  match l with
  | [] => []
  | [x] => x
  | x :: r => x ++ sep ++ join sep r
  end.

(** ** Data model *)

Record PenReference := { title : jsstring; url : jsstring }.

Record Resources := { javascript : list jsstring; css : list jsstring }.

(** The three code boxes of a pen's page. *)
Inductive box := BoxHtml | BoxCss | BoxJs.

(** The selectors the script waits for or clicks. *)
Inductive selector :=
| ResultIframeHttps            (* .result-iframe[src^="https"] *)
| ActionsButton (b : box)      (* #box-<b> .editor-actions-right > button *)
| ViewCompiled (b : box).      (* #<b>-view-compiled *)

(** What the script can observe of a loaded document: the title links of a
    search page, whether a selector resolves, the CodeMirror editors under
    [.code-wrap] in document order (with the box they sit in and the text
    they show once the view-compiled actions were clicked), and the values
    of the external-resource inputs of both panels in document order. *)
Record DOM := {
  item_title_links : list PenReference;
  resolves : selector -> bool;
  editors : list (box * jsstring);
  js_external_resources : list jsstring;
  css_external_resources : list jsstring
}.

(** ** The template renderer *)

Definition TOK_html : jsstring := cus "{{html}}".
Definition TOK_title : jsstring := cus "{{title}}".
Definition TOK_url : jsstring := cus "{{url}}".
Definition TOK_style : jsstring := cus "{{style}}".
Definition TOK_javascript : jsstring := cus "{{javascript}}".
Definition TOK_resources_javascript : jsstring := cus "{{resources.javascript}}".
Definition TOK_resources_style : jsstring := cus "{{resources.style}}".
Definition TOK_list : jsstring := cus "{{list}}".

(** The tokens of the pen template, in the order they are substituted. *)
Definition pen_tokens : list jsstring :=
  [TOK_html; TOK_title; TOK_url; TOK_style; TOK_javascript;
   TOK_resources_javascript; TOK_resources_style].

(** [content[i] ? content[i] : '']: an index past the end gives
    [undefined], and both [undefined] and the empty string are falsy. *)
Definition slot (content : list jsstring) (i : nat) : jsstring :=
  match content !! i with
  | Some s => if is_nil s then [] else s
  | None => []
  end.

Definition script_tag (src : jsstring) : jsstring :=
  cus "<script src=" ++ [QUOTE] ++ src ++ [QUOTE] ++ cus "></script>".

Definition link_tag (href : jsstring) : jsstring :=
  cus "<link rel=" ++ [QUOTE] ++ cus "stylesheet" ++ [QUOTE] ++ cus " href="
    ++ [QUOTE] ++ href ++ [QUOTE] ++ cus ">".

Definition script_block (srcs : list jsstring) : jsstring :=
  join [NEWLINE] (map script_tag srcs).

Definition style_block (hrefs : list jsstring) : jsstring :=
  join [NEWLINE] (map link_tag hrefs).

(** Step (3.g): the chain of seven substitutions on the pen template. *)
Definition render_pen (penTemplate : jsstring) (pen : PenReference)
    (content : list jsstring) (resources : Resources) : jsstring :=
  let html := String_replace penTemplate TOK_html (slot content 0) in
  let html := String_replace html TOK_title (trim (title pen)) in
  let html := String_replace html TOK_url (url pen) in
  let html := String_replace html TOK_style (slot content 1) in
  let html := String_replace html TOK_javascript (slot content 2) in
  let html := String_replace html TOK_resources_javascript
                (script_block (javascript resources)) in
  String_replace html TOK_resources_style (style_block (css resources)).

(** The anchor of one pen in the index, and the loop of [saveIndex] that
    appends one anchor per pen to [list]. *)
Definition anchor (pen : PenReference) : jsstring :=
  let title := trim (title pen) in
  cus "<a href=" ++ [QUOTE] ++ titleToFilename title ++ cus ".html" ++ [QUOTE]
    ++ cus " target=" ++ [QUOTE] ++ cus "iframe" ++ [QUOTE] ++ cus ">"
    ++ title ++ cus "</a>".

Definition index_list (pens : list PenReference) : jsstring :=
  fold_left (fun list pen => list ++ anchor pen) pens [].

Definition render_index (indexTemplate : jsstring) (pens : list PenReference)
    : jsstring :=
  String_replace indexTemplate TOK_list (index_list pens).

(** ** The pen extractor's two page evaluations *)

(** Step (3.e): push the value of every editor, in document order. *)
Definition evaluate_content (d : DOM) : list jsstring :=
  fold_left (fun content editor => content ++ [snd editor]) (editors d) [].

(** Step (3.f): for each input, push its trimmed value when it is not the
    empty string. *)
Definition collect_inputs (inputs : list jsstring) : list jsstring :=
  fold_left (fun acc value =>
               let val := trim value in
               if is_nil val then acc else acc ++ [val])
            inputs [].

Definition evaluate_resources (d : DOM) : Resources :=
  {| javascript := collect_inputs (js_external_resources d);
     css := collect_inputs (css_external_resources d) |}.

(** ** The world: file store, browser page, console *)

(** Console lines, by the call that prints them:
    [Search for "<q>", PAGE #<page>], [Pen "<path>" already saved!],
    [Processing "<title>" @ <url>] and [... saved to "<path>"]. *)
Inductive log_message :=
| MsgSearch (q : jsstring) (page : Z)
| MsgAlreadySaved (path : jsstring)
| MsgProcessing (title url : jsstring)
| MsgSaved (path : jsstring).

Inductive event :=
| EvLaunch (headless : bool)
| EvSetViewport
| EvLog (m : log_message)
| EvGoto (url : jsstring)
| EvScreenshot (path : jsstring)
| EvWaitForSelector (s : selector)
| EvClick (s : selector)
| EvWriteFile (path data : jsstring)
| EvClose.

(** [files] is what [fs] sees: text files by path.  Directories are not
    part of it, so the two [mkdirSync] calls have no counterpart and a
    write always succeeds; the screenshots, which the browser writes at
    paths ending in [.png], are recorded in the trace only.  [pens] is the
    array shared by [run], [download] and [saveIndex], [document] what the
    browser page currently shows, and [trace] the observable actions so
    far, oldest first. *)
Record State := {
  files : gmap jsstring jsstring;
  pens : list PenReference;
  document : DOM;
  trace : list event
}.

(** The document of a page that has not navigated yet. *)
Definition about_blank : DOM :=
  {| item_title_links := []; resolves := fun _ => false; editors := [];
     js_external_resources := []; css_external_resources := [] |}.

Definition initial (fs : gmap jsstring jsstring) : State :=
  {| files := fs; pens := []; document := about_blank; trace := [] |}.

(** A computation either returns or rejects (a thrown exception or a
    rejected promise, which nothing in the scripts catches); the state it
    leaves behind is kept in both cases. *)
Inductive result (A : Type) :=
| Ok (a : A)
| Rejected.
Arguments Ok {A} a.
Arguments Rejected {A}.

Definition M (A : Type) : Type := State -> result A * State.

Definition ret {A} (a : A) : M A := fun st => (Ok a, st).

Definition bind {A B} (m : M A) (k : A -> M B) : M B :=
  fun st =>
    match m st with
    | (Ok a, st') => k a st'
    | (Rejected, st') => (Rejected, st')
    end.

Notation "x <- m ;; k" := (bind m (fun x => k))
  (at level 100, m at level 99, k at level 200, right associativity).
Notation "m ;;; k" := (bind m (fun _ => k))
  (at level 100, k at level 200, right associativity).

Definition reject {A} : M A := fun st => (Rejected, st).

Definition when (b : bool) (m : M unit) : M unit :=
  if b then m else ret tt.

Definition emit (e : event) : M unit :=
  fun st =>
    (Ok tt, {| files := files st; pens := pens st; document := document st;
               trace := trace st ++ [e] |}).

Definition log (m : log_message) : M unit := emit (EvLog m).

Definition existsSync (path : jsstring) : M bool :=
  fun st => (Ok (bool_decide (is_Some (files st !! path))), st).

Definition readFileSync (path : jsstring) : M jsstring :=
  fun st =>
    match files st !! path with
    | Some data => ret data st
    | None => reject st
    end.

Definition writeFileSync (path data : jsstring) : M unit :=
  fun st =>
    (Ok tt, {| files := <[path := data]> (files st); pens := pens st;
               document := document st;
               trace := trace st ++ [EvWriteFile path data] |}).

Definition get_pens : M (list PenReference) := fun st => (Ok (pens st), st).

Definition set_pens (ps : list PenReference) : M unit :=
  fun st =>
    (Ok tt, {| files := files st; pens := ps; document := document st;
               trace := trace st |}).

Definition get_document : M DOM := fun st => (Ok (document st), st).

Definition load (d : DOM) : M unit :=
  fun st =>
    (Ok tt, {| files := files st; pens := pens st; document := d;
               trace := trace st |}).

(** [pens.push(pen)]. *)
Definition push (pen : PenReference) : M unit :=
  fun st => set_pens (pens st ++ [pen]) st.

Section Pipeline.

(** The site: the document a navigation to a URL ends on, or [None] when
    the navigation rejects. *)
Variable web : jsstring -> option DOM.

(** [querystring.stringify({limit: 'all', q: q, page: page})]. *)
Variable querystring_stringify : jsstring -> Z -> jsstring.

Definition goto (url : jsstring) : M unit :=
  emit (EvGoto url) ;;;
  match web url with
  | Some d => load d
  | None => reject
  end.

Definition screenshot (path : jsstring) : M unit := emit (EvScreenshot path).

(** [waitForSelector] rejects (on its timeout) when the selector never
    resolves; [click] rejects when no node matches. *)
Definition waitForSelector (s : selector) : M unit :=
  emit (EvWaitForSelector s) ;;;
  d <- get_document ;;
  if resolves d s then ret tt else reject.

Definition click (s : selector) : M unit :=
  emit (EvClick s) ;;;
  d <- get_document ;;
  if resolves d s then ret tt else reject.

Definition evaluate {A} (f : DOM -> A) : M A :=
  d <- get_document ;;
  ret (f d).

(** Step (2): the title links of a search page. *)
Definition evaluate_links (d : DOM) : list PenReference :=
  fold_left (fun links element => links ++ [element]) (item_title_links d) [].

(** *** The body of the loop over [links], steps (3.a) to (3.g)

    The same text in [index.js] (inside [download]) and in the [run]
    module's [download]. *)
Definition download_pen (pen : PenReference) (penTemplate pensPath : jsstring)
    (debug : bool) (debugPath : jsstring) : M unit :=
  let filename := titleToFilename (title pen) ++ cus ".html" in
  push pen ;;;
  saved <- existsSync (pensPath ++ filename) ;;
  if (saved : bool) then log (MsgAlreadySaved (pensPath ++ filename))
  else
    log (MsgProcessing (trim (title pen)) (url pen)) ;;;
    goto (url pen) ;;;
    when debug (screenshot (debugPath ++ cus "before.png")) ;;;
    waitForSelector ResultIframeHttps ;;;
    click (ActionsButton BoxHtml) ;;;
    click (ViewCompiled BoxHtml) ;;;
    click (ActionsButton BoxCss) ;;;
    click (ViewCompiled BoxCss) ;;;
    click (ActionsButton BoxJs) ;;;
    click (ViewCompiled BoxJs) ;;;
    content <- evaluate evaluate_content ;;
    resources <- evaluate evaluate_resources ;;
    when debug (screenshot (debugPath ++ cus "after.png")) ;;;
    let html := render_pen penTemplate pen content resources in
    writeFileSync (pensPath ++ filename) html ;;;
    log (MsgSaved (pensPath ++ filename)).

Fixpoint for_of {A} (l : list A) (body : A -> M unit) : M unit :=
  match l with
  | [] => ret tt
  | x :: r => body x ;;; for_of r body
  end.

(** [for (page = startPage; page <= endPage; page++)] on integers: the body
    runs for [startPage], [startPage + 1], ... as long as the counter is at
    most [endPage]. *)
Fixpoint for_pages_from (n : nat) (page : Z) (body : Z -> M unit) : M unit :=
  match n with
  | O => ret tt
  | S n' => body page ;;; for_pages_from n' (page + 1)%Z body
  end.

Definition for_pages (startPage endPage : Z) (body : Z -> M unit) : M unit :=
  for_pages_from (Z.to_nat (endPage - startPage + 1)) startPage body.

Definition searchUrl : jsstring := cus "https://codepen.io/search/pens".

(** *** The [run] module *)

Definition download (links : list PenReference) (penTemplate pensPath : jsstring)
    (debug : bool) (debugPath : jsstring) : M (list PenReference) :=
  for_of links (fun pen => download_pen pen penTemplate pensPath debug debugPath) ;;;
  get_pens.

Definition saveIndex (pens : list PenReference) (pensPath indexTemplate : jsstring)
    : M unit :=
  writeFileSync (pensPath ++ cus "index.html") (render_index indexTemplate pens).

Record Options := {
  searchQuery : jsstring;
  links : option (list PenReference);
  pensPath : jsstring;
  debug : bool;
  debugPath : jsstring;
  startPage : Z;
  endPage : Z;
  penTemplate : jsstring;
  indexTemplate : jsstring
}.

Definition run (o : Options) : M unit :=
  penTemplate <- readFileSync (penTemplate o) ;;
  indexTemplate <- readFileSync (indexTemplate o) ;;
  emit (EvLaunch (negb (debug o))) ;;;
  set_pens [] ;;;
  when (debug o) (emit EvSetViewport) ;;;
  match links o with
  | None =>
      for_pages (startPage o) (endPage o) (fun page =>
        log (MsgSearch (searchQuery o) page) ;;;
        goto (searchUrl ++ cus "/?" ++ querystring_stringify (searchQuery o) page) ;;;
        links <- evaluate evaluate_links ;;
        download links penTemplate (pensPath o) (debug o) (debugPath o) ;;;
        pens <- get_pens ;;
        saveIndex pens (pensPath o) indexTemplate)
  | Some links =>
      download links penTemplate (pensPath o) (debug o) (debugPath o) ;;;
      pens <- get_pens ;;
      saveIndex pens (pensPath o) indexTemplate
  end ;;;
  emit EvClose.

End Pipeline.

(** *** [index.js], with its application parameters as arguments *)

Module IndexJs.
Section Script.

Variable web : jsstring -> option DOM.
Variable querystring_stringify : jsstring -> Z -> jsstring.

Definition debug_links : list PenReference :=
  [ {| title := cus "Flexbox Masonry";
       url := cus "https://codepen.io/osj2507/pen/ZYBBpw" |} ].

Definition download (debug : bool) (searchQuery pensPath debugPath : jsstring)
    (penTemplate indexTemplate : jsstring) : M unit :=
  emit (EvLaunch (negb debug)) ;;;
  set_pens [] ;;;
  when debug (emit EvSetViewport) ;;;
  for_pages 1 4 (fun page =>
    links <- (if debug then ret debug_links
              else
                log (MsgSearch searchQuery page) ;;;
                goto web (searchUrl ++ cus "/?" ++ querystring_stringify searchQuery page) ;;;
                evaluate evaluate_links) ;;
    for_of links (fun pen => download_pen web pen penTemplate pensPath debug debugPath) ;;;
    pens <- get_pens ;;
    writeFileSync (pensPath ++ cus "index.html") (render_index indexTemplate pens)) ;;;
  emit EvClose.

Definition main (debug : bool) (searchQuery pensPath debugPath : jsstring) : M unit :=
  penTemplate <- readFileSync (cus "assets/templates/pen.html") ;;
  indexTemplate <- readFileSync (cus "assets/templates/index.html") ;;
  download debug searchQuery pensPath debugPath penTemplate indexTemplate.

End Script.
End IndexJs.

(** ** Vocabulary of the statements *)

(** The characters of a slug: lowercase letters, digits and the dash. *)
Definition isSlugChar (c : N) : bool :=
  ((48 <=? c) && (c <=? 57)) || ((97 <=? c) && (c <=? 122)) || isDash c.

(** No dash is directly followed by a dash. *)
Fixpoint single_dashes (s : jsstring) : bool :=
  match s with
  | c :: (d :: _) as r => negb (isDash c && isDash d) && single_dashes r
  | _ => true
  end.

Definition starts_with_dash (s : jsstring) : bool :=
  match s with
  | c :: _ => isDash c
  | [] => false
  end.

Fixpoint ends_with_dash (s : jsstring) : bool :=
  match s with
  | [] => false
  | [c] => isDash c
  | _ :: r => ends_with_dash r
  end.

Definition is_slug (s : jsstring) : bool :=
  forallb isSlugChar s && single_dashes s
  && negb (starts_with_dash s) && negb (ends_with_dash s).

(** The number of positions of [s] at which [pat] occurs. *)
Fixpoint occurrences (pat s : jsstring) : nat :=
  ((if starts_with pat s then 1 else 0)
   + match s with
     | [] => 0
     | _ :: r => occurrences pat r
     end)%nat.

Definition occurs_in (pat s : jsstring) : Prop :=
  exists a b, s = a ++ pat ++ b.

(** Two words are comparable when one is a prefix of the other.  [y] is
    apart from the suffixes of [x] (from the [k0]-th on) when none of them
    is comparable with [y]: then no occurrence of [y] starts inside an
    occurrence of [x] at offset [k0] or later. *)
Definition comparable (x y : jsstring) : bool :=
  starts_with x y || starts_with y x.

Definition apart_from (k0 : nat) (x y : jsstring) : bool :=
  forallb (fun k => negb (comparable (drop k x) y)) (seq k0 (length x - k0)).



(** *** Well-formed pen templates

    A pen template whose only braces are those of its tokens is a sequence
    of literal segments and tokens. *)
Inductive token :=
| Html | Title | Url | Style | Javascript | ResourcesJavascript | ResourcesStyle.

#[global] Instance token_eq_dec : EqDecision token.
Proof. solve_decision. Defined.









(** *** Vocabulary of the pipeline statements *)

Definition pen_path (pensPath : jsstring) (pen : PenReference) : jsstring :=
  pensPath ++ titleToFilename (title pen) ++ cus ".html".

Definition index_path (pensPath : jsstring) : jsstring :=
  pensPath ++ cus "index.html".

(** The state after the loop body skipped a pen: the pen is in the
    collection and one line was logged. *)
Definition skipped (st : State) (pen : PenReference) (path : jsstring) : State :=
  {| files := files st; pens := pens st ++ [pen]; document := document st;
     trace := trace st ++ [EvLog (MsgAlreadySaved path)] |}.

(** What the loop body does, in order, when it extracts a pen. *)
Definition extraction_events (pen : PenReference) (debug : bool)
    (debugPath path html : jsstring) : list event :=
  [EvLog (MsgProcessing (trim (title pen)) (url pen)); EvGoto (url pen)]
  ++ (if debug then [EvScreenshot (debugPath ++ cus "before.png")] else [])
  ++ [EvWaitForSelector ResultIframeHttps;
      EvClick (ActionsButton BoxHtml); EvClick (ViewCompiled BoxHtml);
      EvClick (ActionsButton BoxCss); EvClick (ViewCompiled BoxCss);
      EvClick (ActionsButton BoxJs); EvClick (ViewCompiled BoxJs)]
  ++ (if debug then [EvScreenshot (debugPath ++ cus "after.png")] else [])
  ++ [EvWriteFile path html; EvLog (MsgSaved path)].

(** The document written for a pen whose page is [d]. *)
Definition rendered (penTemplate : jsstring) (pen : PenReference) (d : DOM)
    : jsstring :=
  render_pen penTemplate pen (evaluate_content d) (evaluate_resources d).

Definition extracted (st : State) (pen : PenReference) (penTemplate : jsstring)
    (debug : bool) (debugPath path : jsstring) (d : DOM) : State :=
  {| files := <[path := rendered penTemplate pen d]> (files st);
     pens := pens st ++ [pen];
     document := d;
     trace := trace st
              ++ extraction_events pen debug debugPath path
                   (rendered penTemplate pen d) |}.

(** The pen's page loads and every selector of the script resolves on it. *)
Definition extractable (web : jsstring -> option DOM) (pen : PenReference)
    (d : DOM) : Prop :=
  web (url pen) = Some d /\ forall s, resolves d s = true.

(** The state after the loop body ran on a pen and returned: the pen was
    skipped when its file exists and extracted otherwise. *)
Definition processed (web : jsstring -> option DOM)
    (penTemplate pensPath : jsstring) (debug : bool) (debugPath : jsstring)
    (st : State) (pen : PenReference) : State :=
  match files st !! pen_path pensPath pen, web (url pen) with
  | Some _, _ => skipped st pen (pen_path pensPath pen)
  | None, Some d =>
      extracted st pen penTemplate debug debugPath (pen_path pensPath pen) d
  | None, None => st
  end.

(** The states a run goes through: after the browser was launched, after a
    search page was loaded, after the index was saved, after the browser
    was closed. *)
Definition started (debug : bool) (st : State) : State :=
  {| files := files st; pens := []; document := document st;
     trace := trace st ++ [EvLaunch (negb debug)]
              ++ (if debug then [EvSetViewport] else []) |}.

Definition search_url (querystring_stringify : jsstring -> Z -> jsstring)
    (q : jsstring) (page : Z) : jsstring :=
  searchUrl ++ cus "/?" ++ querystring_stringify q page.


Definition indexed (pensPath indexTemplate : jsstring) (st : State) : State :=
  {| files := <[index_path pensPath := render_index indexTemplate (pens st)]>
                (files st);
     pens := pens st; document := document st;
     trace := trace st ++ [EvWriteFile (index_path pensPath)
                             (render_index indexTemplate (pens st))] |}.

Definition finished (st : State) : State :=
  {| files := files st; pens := pens st; document := document st;
     trace := trace st ++ [EvClose] |}.


(** Sample data for the examples. *)
Definition sample_pen : PenReference :=
  {| title := cus " Flexbox Masonry "; url := cus "https://codepen.io/pen/1" |}.

Definition no_resources : Resources := {| javascript := []; css := [] |}.



Definition sample_stringify (q : jsstring) (page : Z) : jsstring :=
  cus "limit=all&q=" ++ q ++ cus "&page=" ++ [(48 + Z.to_N page)%N].

Definition pen_page (markup style script : string) : DOM :=
  {| item_title_links := []; resolves := fun _ => true;
     editors := [(BoxHtml, cus markup); (BoxCss, cus style); (BoxJs, cus script)];
     js_external_resources := [cus " https://cdn.example.com/a.js "; []];
     css_external_resources := [] |}.

Definition search_page (links : list PenReference) : DOM :=
  {| item_title_links := links; resolves := fun _ => false; editors := [];
     js_external_resources := []; css_external_resources := [] |}.

Definition mkpen (title url : string) : PenReference :=
  {| title := cus title; url := cus url |}.

(** A site with two search pages for the query [flexbox]; every address
    under [https://codepen.io/pen/] shows the same pen page. *)
Definition sample_web (page1 page2 : list PenReference) (u : jsstring)
    : option DOM :=
  if decide (u = search_url sample_stringify (cus "flexbox") 1)
  then Some (search_page page1)
  else if decide (u = search_url sample_stringify (cus "flexbox") 2)
  then Some (search_page page2)
  else if starts_with (cus "https://codepen.io/pen/") u
  then Some (pen_page "<p>hi</p>" "p{color:red}" "alert(1)")
  else None.

Definition sample_files : gmap jsstring jsstring :=
  <[cus "assets/templates/pen.html" :=
      cus "<title>{{title}}</title>{{resources.javascript}}<style>{{style}}</style>{{html}}<script>{{javascript}}</script>"]>
    (<[cus "assets/templates/index.html" := cus "<nav>{{list}}</nav>"]> ∅).

Definition sample_options (links : option (list PenReference)) : Options :=
  {| searchQuery := cus "flexbox"; links := links; pensPath := cus "pens/";
     debug := false; debugPath := cus "debug/"; startPage := 1; endPage := 2;
     penTemplate := cus "assets/templates/pen.html";
     indexTemplate := cus "assets/templates/index.html" |}.

Definition sample_pen_template : jsstring :=
  cus "<title>{{title}}</title>{{resources.javascript}}<style>{{style}}</style>{{html}}<script>{{javascript}}</script>".

Definition sample_index_template : jsstring := cus "<nav>{{list}}</nav>".


Definition first_masonry : PenReference :=
  mkpen "Flexbox Masonry" "https://codepen.io/pen/1".
Definition second_masonry : PenReference :=
  mkpen "flexbox masonry!!" "https://unreachable.example/".


Definition grid_pen : PenReference :=
  mkpen "Flexbox Grid" "https://codepen.io/pen/2".


(** *** The words of a title

    The maximal runs of letters and digits of a string, in order. *)
Definition starts_alnum (s : jsstring) : bool :=
  match s with
  | c :: _ => isAlnum c
  | [] => false
  end.

Fixpoint alnum_words (s : jsstring) : list jsstring :=
  match s with
  | [] => []
  | c :: r =>
      if isAlnum c then
        if starts_alnum r then
          match alnum_words r with
          | w :: ws => (c :: w) :: ws
          | [] => [[c]]
          end
        else [c] :: alnum_words r
      else alnum_words r
  end.

(** The last code unit of [s] is outside the class. *)
Fixpoint ends_non_alnum (s : jsstring) : bool :=
  match s with
  | [] => false
  | [c] => negb (isAlnum c)
  | _ :: r => ends_non_alnum r
  end.

(** A word: not empty, letters and digits only. *)
Definition is_word (w : jsstring) : bool :=
  negb (is_nil w) && forallb isAlnum w.

(** *** What a computation may do to the state *)

(** An event other than launching and closing the browser. *)
Definition quiet (e : event) : Prop :=
  e <> EvClose /\ forall headless, e <> EvLaunch headless.

(** [st'] has the trace of [st] followed by events that satisfy [P]. *)
Definition extends_trace (P : event -> Prop) (st st' : State) : Prop :=
  exists tr, trace st' = trace st ++ tr /\ Forall P tr.

(** Whatever its outcome, [m] takes a state to one related to it by [R]. *)
Definition ensures {A} (R : State -> State -> Prop) (m : M A) : Prop :=
  forall st r st', m st = (r, st') -> R st st'.

(** Every file of [st] is in [st'] with the same content. *)
Definition keeps_files (st st' : State) : Prop :=
  forall k v, files st !! k = Some v -> files st' !! k = Some v.

(** The addresses navigated to, in the order of the trace. *)
Definition navigations (tr : list event) : list jsstring :=
  omap (fun e => match e with EvGoto u => Some u | _ => None end) tr.




(** The state after the loop skipped every pen of [l]. *)
Definition all_skipped (pensPath : jsstring) (l : list PenReference)
    (st : State) : State :=
  {| files := files st; pens := pens st ++ l; document := document st;
     trace := trace st
              ++ map (fun p => EvLog (MsgAlreadySaved (pen_path pensPath p))) l |}.



(** * Properties *)

(** ** Characters *)

#[local] Arguments isAlnum : simpl never.
#[local] Arguments isDash : simpl never.
#[local] Arguments isWhiteSpace : simpl never.
#[local] Arguments isSlugChar : simpl never.
#[local] Arguments lower : simpl never.

Create Rewrite HintDb bool2prop.
#[local] Hint Rewrite andb_true_iff orb_true_iff andb_false_iff orb_false_iff
  negb_true_iff negb_false_iff N.leb_le N.leb_gt N.eqb_eq N.eqb_neq : bool2prop.

Ltac chars :=
  unfold isSlugChar, isAlnum, isWhiteSpace, isDash, lower, DASH in *;
  autorewrite with bool2prop in *;
  try lia.

Lemma alnum_not_dash c : isAlnum c = true -> isDash c = false.
Proof. chars. Qed.

Lemma slug_char_not_space c : isSlugChar c = true -> isWhiteSpace c = false.
Proof. chars. Qed.

Lemma lower_slug_char c :
  isAlnum c || isDash c = true -> isSlugChar (lower c) = true.
Proof.
  unfold lower. destruct ((65 <=? c) && (c <=? 90)) eqn:E; chars.
Qed.

Lemma lower_dash c : isDash (lower c) = isDash c.
Proof.
  unfold lower. destruct ((65 <=? c) && (c <=? 90)) eqn:E; [|done].
  destruct (isDash c) eqn:D, (isDash (c + 32)) eqn:D'; try done; chars.
Qed.

Lemma lower_fixes_slug_char c : isSlugChar c = true -> lower c = c.
Proof.
  unfold lower. destruct ((65 <=? c) && (c <=? 90)) eqn:E; [|done]. chars.
Qed.

Lemma slug_char_alnum_or_dash c :
  isSlugChar c = true -> isAlnum c || isDash c = true.
Proof. chars. Qed.

(** ** [trim] *)

Lemma trimEnd_id s :
  forallb (fun c => negb (isWhiteSpace c)) s = true -> trimEnd s = s.
Proof.
  induction s as [|c r IH]; simpl; [done|].
  intros [Hc Hr]%andb_true_iff. rewrite IH by done.
  apply negb_true_iff in Hc. rewrite Hc. by destruct r.
Qed.

Lemma trim_id s :
  forallb (fun c => negb (isWhiteSpace c)) s = true -> trim s = s.
Proof.
  intros H. unfold trim.
  assert (trimStart s = s) as ->; [|by apply trimEnd_id].
  destruct s as [|c r]; simpl in *; [done|].
  apply andb_true_iff in H as [Hc _]. apply negb_true_iff in Hc.
  by rewrite Hc.
Qed.

Lemma trimStart_head s :
  match trimStart s with
  | c :: _ => isWhiteSpace c = false
  | [] => True
  end.
Proof.
  induction s as [|c r IH]; simpl; [done|].
  by destruct (isWhiteSpace c) eqn:E.
Qed.

Lemma trimStart_trimEnd_comm_head s :
  match trimEnd (trimStart s) with
  | c :: _ => isWhiteSpace c = false
  | [] => True
  end.
Proof.
  pose proof (trimStart_head s) as H.
  destruct (trimStart s) as [|c r]; simpl; [done|].
  destruct (trimEnd r); [destruct (isWhiteSpace c) eqn:E|]; simpl; congruence.
Qed.

Lemma trimEnd_idem s : trimEnd (trimEnd s) = trimEnd s.
Proof.
  induction s as [|c r IH]; simpl; [done|].
  destruct (trimEnd r) as [|d t] eqn:E.
  - destruct (isWhiteSpace c) eqn:W; simpl; [done|]. by rewrite W.
  - simpl in *. rewrite IH. by destruct t.
Qed.

Lemma trim_idem s : trim (trim s) = trim s.
Proof.
  unfold trim.
  pose proof (trimStart_trimEnd_comm_head s) as H.
  destruct (trimEnd (trimStart s)) as [|c r] eqn:E; [done|].
  simpl trimStart. rewrite H, <- E. apply trimEnd_idem.
Qed.

(** ** The normaliser against its specification *)

Section NormalizerRefinement.
Import Normalizer NormalizeSpec.

(** Mapping to dashes and then squeezing runs of dashes is replacing the
    runs of characters outside the class, whether the scan starts outside
    a run or just behind the first character of one. *)
Lemma dash_runs_collapse s :
  replace_dash_runs_from false (replace_non_alnum s) = collapse_runs s
  /\ forall c, isAlnum c = false ->
       DASH :: replace_dash_runs_from true (replace_non_alnum s)
       = collapse_runs (c :: s).
Proof.
  induction s as [|d r [IH1 IH2]].
  - split; [done|]. intros c Hc. simpl. by rewrite Hc.
  - assert (forall c, isAlnum c = false ->
       DASH :: replace_dash_runs_from true (replace_non_alnum (d :: r))
       = collapse_runs (c :: d :: r)) as H2.
    { intros c Hc. cbn [collapse_runs]. rewrite Hc.
      cbn [replace_non_alnum map replace_dash_runs_from].
      destruct (isAlnum d) eqn:Hd.
      - rewrite (alnum_not_dash d Hd). fold (replace_non_alnum r).
        by rewrite IH1.
      - change (isDash DASH) with true. cbn iota.
        fold (replace_non_alnum r). rewrite (IH2 d Hd). simpl. by rewrite Hd. }
    split; [|done].
    cbn [replace_non_alnum map replace_dash_runs_from collapse_runs].
    destruct (isAlnum d) eqn:Hd.
    + rewrite (alnum_not_dash d Hd). fold (replace_non_alnum r). by rewrite IH1.
    + change (isDash DASH) with true. cbn iota. fold (replace_non_alnum r).
      rewrite (IH2 d Hd). simpl. by rewrite Hd.
Qed.

Lemma strip_edge_from_false s :
  strip_edge_dashes_from false s = strip_trailing s.
Proof.
  induction s as [|c r IH]; [done|].
  cbn [strip_edge_dashes_from strip_trailing]. rewrite IH, orb_false_r.
  destruct r as [|d t]; [|by rewrite andb_false_r].
  simpl. rewrite andb_true_r. by destruct (isDash c).
Qed.

Lemma strip_edge_leading_trailing s :
  strip_edge_dashes s = strip_trailing (strip_leading s).
Proof.
  destruct s as [|c r]; [done|].
  unfold strip_edge_dashes. cbn [strip_edge_dashes_from strip_leading].
  rewrite orb_true_r, andb_true_r, strip_edge_from_false.
  destruct (isDash c) eqn:Hc; [done|].
  destruct r; simpl; by rewrite ?Hc.
Qed.

(** *** Shape of the intermediate strings *)

Lemma collapse_runs_chars s :
  forallb (fun c => isAlnum c || isDash c) (collapse_runs s) = true.
Proof.
  induction s as [|c r IH]; [done|].
  cbn [collapse_runs]. destruct (isAlnum c) eqn:Hc.
  - simpl. by rewrite Hc, IH.
  - destruct r as [|d t]; [done|].
    destruct (isAlnum d); [|done]. cbn [forallb]. by rewrite IH, orb_true_r.
Qed.

Lemma collapse_runs_head s :
  starts_with_dash (collapse_runs s)
  = match s with c :: _ => negb (isAlnum c) | [] => false end.
Proof.
  induction s as [|c r IH]; [done|].
  cbn [collapse_runs]. destruct (isAlnum c) eqn:Hc.
  - simpl. by apply alnum_not_dash.
  - destruct r as [|d t]; [done|].
    destruct (isAlnum d) eqn:Hd; [done|]. by rewrite IH.
Qed.

Lemma single_dashes_cons c d t :
  single_dashes (c :: d :: t)
  = negb (isDash c && isDash d) && single_dashes (d :: t).
Proof. done. Qed.

Lemma collapse_runs_single s : single_dashes (collapse_runs s) = true.
Proof.
  induction s as [|c r IH]; [done|].
  pose proof (collapse_runs_head r) as Hh.
  cbn [collapse_runs]. destruct (isAlnum c) eqn:Hc.
  - destruct (collapse_runs r) as [|d t] eqn:E; [done|].
    by rewrite single_dashes_cons, (alnum_not_dash c Hc), IH.
  - destruct r as [|d t]; [done|].
    destruct (isAlnum d) eqn:Hd; [|done].
    destruct (collapse_runs (d :: t)) as [|e u] eqn:E; [done|].
    rewrite single_dashes_cons, IH. simpl in Hh. rewrite Hh.
    by rewrite andb_false_r.
Qed.

Lemma strip_trailing_chars P s :
  forallb P s = true -> forallb P (strip_trailing s) = true.
Proof.
  induction s as [|c r IH]; [done|].
  intros [Hc Hr]%andb_true_iff. cbn [strip_trailing].
  destruct r as [|d t]; [destruct (isDash c); simpl; by rewrite ?Hc|].
  cbn [forallb]. by rewrite Hc, IH.
Qed.

Lemma strip_trailing_single s :
  single_dashes s = true -> single_dashes (strip_trailing s) = true.
Proof.
  induction s as [|c r IH]; [done|].
  destruct r as [|d t]; [simpl; by destruct (isDash c)|].
  cbn [single_dashes]. intros [Hcd Hr]%andb_true_iff. specialize (IH Hr).
  change (strip_trailing (c :: d :: t)) with (c :: strip_trailing (d :: t)).
  destruct t as [|e u].
  - simpl. destruct (isDash d) eqn:Hd; simpl; [done|].
    by rewrite Hd, andb_false_r.
  - change (strip_trailing (d :: e :: u)) with (d :: strip_trailing (e :: u)) in *.
    by rewrite single_dashes_cons, Hcd, IH.
Qed.

Lemma strip_trailing_head s :
  starts_with_dash s = false -> starts_with_dash (strip_trailing s) = false.
Proof.
  destruct s as [|c [|d t]]; simpl; try done. intros H. by rewrite H.
Qed.

Lemma strip_trailing_end s :
  single_dashes s = true -> ends_with_dash (strip_trailing s) = false.
Proof.
  induction s as [|c r IH]; [done|].
  destruct r as [|d t]; [simpl; by destruct (isDash c) eqn:E; simpl; rewrite ?E|].
  cbn [single_dashes]. intros [Hcd Hr]%andb_true_iff. specialize (IH Hr).
  change (strip_trailing (c :: d :: t)) with (c :: strip_trailing (d :: t)).
  destruct t as [|e u].
  - simpl in *. destruct (isDash d) eqn:Hd; simpl.
    + rewrite andb_true_r in Hcd. by apply negb_true_iff in Hcd.
    + done.
  - change (strip_trailing (d :: e :: u)) with (d :: strip_trailing (e :: u)) in *.
    done.
Qed.

Lemma strip_leading_chars P s :
  forallb P s = true -> forallb P (strip_leading s) = true.
Proof.
  destruct s as [|c r]; [done|]. simpl.
  intros [Hc Hr]%andb_true_iff. destruct (isDash c); simpl; by rewrite ?Hc.
Qed.

Lemma strip_leading_single s :
  single_dashes s = true -> single_dashes (strip_leading s) = true.
Proof.
  destruct s as [|c r]; [done|]. simpl strip_leading.
  destruct (isDash c); [|done].
  destruct r; [done|]. cbn [single_dashes]. by intros [_ ?]%andb_true_iff.
Qed.

Lemma strip_leading_head s :
  single_dashes s = true -> starts_with_dash (strip_leading s) = false.
Proof.
  destruct s as [|c r]; [done|]. simpl strip_leading.
  destruct (isDash c) eqn:Hc; [|by simpl].
  destruct r as [|d t]; [done|]. cbn [single_dashes]. rewrite Hc. simpl.
  intros [H _]%andb_true_iff. by apply negb_true_iff in H.
Qed.

Lemma toLowerCase_chars s :
  forallb (fun c => isAlnum c || isDash c) s = true ->
  forallb isSlugChar (toLowerCase s) = true.
Proof.
  induction s as [|c r IH]; [done|]. simpl.
  intros [Hc Hr]%andb_true_iff. by rewrite (lower_slug_char c Hc), IH.
Qed.

Lemma toLowerCase_single s : single_dashes (toLowerCase s) = single_dashes s.
Proof.
  induction s as [|c r IH]; [done|].
  destruct r as [|d t]; [done|].
  change (toLowerCase (c :: d :: t)) with (lower c :: lower d :: toLowerCase t).
  change (toLowerCase (d :: t)) with (lower d :: toLowerCase t) in IH.
  by rewrite !single_dashes_cons, !lower_dash, IH.
Qed.

Lemma toLowerCase_head s : starts_with_dash (toLowerCase s) = starts_with_dash s.
Proof. destruct s; [done|]. simpl. apply lower_dash. Qed.

Lemma toLowerCase_end s : ends_with_dash (toLowerCase s) = ends_with_dash s.
Proof.
  induction s as [|c r IH]; [done|].
  destruct r as [|d t]; [simpl; apply lower_dash|].
  change (toLowerCase (c :: d :: t)) with (lower c :: lower d :: toLowerCase t).
  change (toLowerCase (d :: t)) with (lower d :: toLowerCase t) in IH.
  done.
Qed.

Lemma normalize_is_slug s : is_slug (normalize s) = true.
Proof.
  unfold is_slug, normalize.
  pose proof (collapse_runs_chars (trim s)) as Hc.
  pose proof (collapse_runs_single (trim s)) as Hs.
  rewrite toLowerCase_chars, toLowerCase_single, toLowerCase_head,
    toLowerCase_end.
  - rewrite strip_trailing_single, strip_trailing_head, strip_trailing_end;
      auto using strip_leading_single, strip_leading_head.
  - auto using strip_trailing_chars, strip_leading_chars.
Qed.

Lemma slug_no_space s :
  forallb isSlugChar s = true ->
  forallb (fun c => negb (isWhiteSpace c)) s = true.
Proof.
  induction s as [|c r IH]; [done|]. simpl.
  intros [Hc Hr]%andb_true_iff. by rewrite (slug_char_not_space c Hc), IH.
Qed.

(** [toLowerCase] is only ever applied to a string over [[A-Za-z0-9-]]. *)
Lemma toLowerCase_receiver s :
  forallb (fun c => isAlnum c || isDash c)
    (strip_edge_dashes (replace_dash_runs (replace_non_alnum (trim s)))) = true.
Proof.
  rewrite strip_edge_leading_trailing. unfold replace_dash_runs.
  rewrite (proj1 (dash_runs_collapse _)).
  auto using strip_trailing_chars, strip_leading_chars, collapse_runs_chars.
Qed.

Lemma titleToFilename_normalize s : titleToFilename s = normalize s.
Proof.
  unfold titleToFilename.
  rewrite strip_edge_leading_trailing. unfold replace_dash_runs.
  rewrite (proj1 (dash_runs_collapse _)). fold (normalize s).
  apply trim_id, slug_no_space.
  pose proof (normalize_is_slug s) as H. unfold is_slug in H.
  by repeat (apply andb_true_iff in H as [H _]).
Qed.

(** *** A slug is a fixed point *)

Lemma collapse_runs_slug s :
  forallb (fun c => isAlnum c || isDash c) s = true ->
  single_dashes s = true -> collapse_runs s = s.
Proof.
  induction s as [|c r IH]; [done|].
  cbn [forallb]. intros [Hc Hr]%andb_true_iff Hs.
  assert (single_dashes r = true) as Hs'.
  { destruct r; [done|]. cbn [single_dashes] in Hs.
    by apply andb_true_iff in Hs as [_ ?]. }
  cbn [collapse_runs]. rewrite (IH Hr Hs').
  destruct (isAlnum c) eqn:Ha; [done|]. simpl in Hc.
  assert (c = DASH) as -> by (by apply N.eqb_eq).
  destruct r as [|d t]; [done|].
  cbn [single_dashes] in Hs. apply andb_true_iff in Hs as [Hd _].
  change (isDash DASH) with true in Hd. simpl in Hd.
  apply negb_true_iff in Hd.
  cbn [forallb] in Hr. apply andb_true_iff in Hr as [Hr _].
  rewrite Hd, orb_false_r in Hr. by rewrite Hr.
Qed.

Lemma strip_trailing_id s : ends_with_dash s = false -> strip_trailing s = s.
Proof.
  induction s as [|c r IH]; [done|].
  destruct r as [|d t]; [simpl; by intros ->|].
  intros H. change (strip_trailing (c :: d :: t)) with (c :: strip_trailing (d :: t)).
  by rewrite IH.
Qed.

Lemma toLowerCase_slug s : forallb isSlugChar s = true -> toLowerCase s = s.
Proof.
  induction s as [|c r IH]; [done|]. simpl.
  intros [Hc Hr]%andb_true_iff. by rewrite (lower_fixes_slug_char c Hc), IH.
Qed.

Lemma titleToFilename_fixes_slug s : is_slug s = true -> titleToFilename s = s.
Proof.
  unfold is_slug. intros H.
  apply andb_true_iff in H as [H He]. apply andb_true_iff in H as [H Hh].
  apply andb_true_iff in H as [Hc Hs].
  apply negb_true_iff in He, Hh.
  rewrite titleToFilename_normalize. unfold normalize.
  rewrite (trim_id s) by by apply slug_no_space.
  rewrite collapse_runs_slug; [|clear -Hc|done].
  - assert (strip_leading s = s) as ->.
    { destruct s; [done|]. simpl in *. by rewrite Hh. }
    rewrite strip_trailing_id by done. by apply toLowerCase_slug.
  - induction s as [|c r IH]; [done|]. simpl in *.
    apply andb_true_iff in Hc as [Hc Hr].
    by rewrite (slug_char_alnum_or_dash c Hc), IH.
Qed.

End NormalizerRefinement.

Lemma single_dashes_lookup s i :
  single_dashes s = true -> s !! i = Some DASH -> s !! S i <> Some DASH.
Proof.
  revert i. induction s as [|c r IH]; [done|]. intros i Hs.
  destruct r as [|d t]; [by destruct i|].
  rewrite single_dashes_cons in Hs. apply andb_true_iff in Hs as [Hcd Hr].
  destruct i as [|i]; [|by apply IH].
  simpl. intros [= ->] [= ->]. done.
Qed.

Lemma starts_with_dash_head s :
  starts_with_dash s = false -> head s <> Some DASH.
Proof. destruct s; [done|]. simpl. by intros H [= ->]. Qed.

Lemma ends_with_dash_last s :
  ends_with_dash s = false -> last s <> Some DASH.
Proof.
  induction s as [|c r IH]; [done|].
  destruct r as [|d t]; [simpl; by intros H [= ->]|].
  intros H. rewrite last_cons_cons. by apply IH.
Qed.

(** C1: for every string, [titleToFilename] returns what the steps of the
    specification give (trim, replace every maximal run of characters
    outside the class by one dash, strip a leading or trailing dash,
    lowercase); it is a function defined on every string, so it is total
    and deterministic; and the two documented examples hold. *)
Theorem titleToFilename_refines_normalize :
  (forall s, titleToFilename s = NormalizeSpec.normalize s)
  /\ (forall s, exists r, titleToFilename s = r
                          /\ forall r', titleToFilename s = r' -> r' = r)
  /\ titleToFilename (cus "Flexbox Masonry!!") = cus "flexbox-masonry"
  /\ titleToFilename (cus "  --Multi   Space--  ") = cus "multi-space".
Proof.
  split; [exact titleToFilename_normalize|].
  split; [|split; reflexivity].
  intros s. exists (titleToFilename s). split; [done|]. by intros r' <-.
Qed.

(** C2: for every string, the slug consists of lowercase letters, digits
    and dashes only, no dash is directly followed by another, it neither
    begins nor ends with a dash, and normalising it again changes
    nothing. *)
Theorem titleToFilename_slug_idempotent (s : jsstring) :
  let r := titleToFilename s in
  (forall c, c ∈ r -> (97 <= c <= 122)%N \/ (48 <= c <= 57)%N \/ c = DASH)
  /\ (forall i : nat, r !! i = Some DASH -> r !! S i <> Some DASH)
  /\ head r <> Some DASH
  /\ last r <> Some DASH
  /\ titleToFilename r = r.
Proof.
  intros r.
  assert (is_slug r = true) as Hslug.
  { subst r. rewrite titleToFilename_normalize. apply normalize_is_slug. }
  pose proof Hslug as H. unfold is_slug in H.
  apply andb_true_iff in H as [H He]. apply andb_true_iff in H as [H Hh].
  apply andb_true_iff in H as [Hc Hs].
  apply negb_true_iff in He, Hh.
  repeat split.
  - intros c Hin. rewrite forallb_forall in Hc.
    apply list_elem_of_In, Hc in Hin. revert Hin. clear. chars.
  - intros i. by apply single_dashes_lookup.
  - by apply starts_with_dash_head.
  - by apply ends_with_dash_last.
  - by apply titleToFilename_fixes_slug.
Qed.

Lemma titleToFilename_refines_normalize_witness :
  titleToFilename (cus "CSS: Grid & Flexbox")
  = NormalizeSpec.normalize (cus "CSS: Grid & Flexbox")
  /\ titleToFilename (cus "CSS: Grid & Flexbox") = cus "css-grid-flexbox".
Proof.
  destruct titleToFilename_refines_normalize as (H1 & H2 & _).
  split; [apply H1|].
  destruct (H2 (cus "CSS: Grid & Flexbox")) as (r & Hr & Hdet).
  rewrite Hr. symmetry. apply Hdet. reflexivity.
Defined.

Lemma titleToFilename_slug_idempotent_witness :
  ((97 <= 109 <= 122)%N \/ (48 <= 109 <= 57)%N \/ 109%N = DASH)
  /\ titleToFilename (cus "  --Multi   Space--  ") !! 6%nat <> Some DASH
  /\ titleToFilename (titleToFilename (cus "  --Multi   Space--  "))
     = titleToFilename (cus "  --Multi   Space--  ").
Proof.
  destruct (titleToFilename_slug_idempotent (cus "  --Multi   Space--  "))
    as (Hc & Hd & _ & _ & Hi).
  split; [apply Hc, list_elem_of_In; vm_compute; auto 20|].
  split; [apply Hd; reflexivity|exact Hi].
Defined.

(** ** Occurrences of a pattern *)

Local Close Scope N_scope.

Lemma starts_with_prefix p s :
  starts_with p s = true <-> exists k, s = p ++ k.
Proof.
  revert s. induction p as [|c p IH]; intros s; simpl.
  - split; eauto.
  - destruct s as [|d s]; [split; [done|by intros [? ?]]|].
    rewrite andb_true_iff, N.eqb_eq, IH. split.
    + intros [-> [k ->]]. eauto.
    + intros [k [= -> ->]]. eauto.
Qed.

Lemma starts_with_app p x : starts_with p (p ++ x) = true.
Proof. apply starts_with_prefix. eauto. Qed.

Lemma starts_with_app_l p s x :
  starts_with p s = true -> starts_with p (s ++ x) = true.
Proof.
  rewrite !starts_with_prefix. intros [k ->]. exists (k ++ x).
  by rewrite app_assoc.
Qed.

Lemma starts_with_nil_r p : p <> [] -> starts_with p [] = false.
Proof. by destruct p. Qed.

(** A prefix of [a ++ q] either lies inside [a] or runs over the end of
    [a], and then what is left of it is a prefix of [q]. *)
Lemma starts_with_app_split t a q :
  starts_with t (a ++ q) = true ->
  starts_with t a = true
  \/ (length a < length t /\ starts_with (drop (length a) t) q = true).
Proof.
  revert t. induction a as [|c a IH]; intros t; simpl.
  - destruct t; [by left|]. intros H. right. split; [simpl; lia|done].
  - destruct t as [|d t]; [by left|]. simpl.
    intros [Hd Ht]%andb_true_iff. rewrite Hd. simpl.
    destruct (IH t Ht) as [?|[? ?]]; [by left|right]. split; [lia|done].
Qed.

Lemma starts_with_comparable x p b :
  starts_with x (p ++ b) = true -> comparable x p = true.
Proof.
  unfold comparable. revert p. induction x as [|c x IH]; intros p; [done|].
  destruct p as [|d p]; [by rewrite orb_true_r|]. simpl.
  intros [Hd Hx]%andb_true_iff. rewrite Hd. apply N.eqb_eq in Hd as ->.
  rewrite N.eqb_refl. simpl. by apply IH.
Qed.

Lemma comparable_sym x y : comparable x y = comparable y x.
Proof. apply orb_comm. Qed.

Lemma apart_from_spec k0 x y k :
  apart_from k0 x y = true -> k0 <= k < length x ->
  comparable (drop k x) y = false.
Proof.
  unfold apart_from. rewrite forallb_forall. intros H Hk.
  apply negb_true_iff, H, in_seq. lia.
Qed.

Lemma occurrences_nil t : t <> [] -> occurrences t [] = 0.
Proof. intros H. simpl. by rewrite starts_with_nil_r. Qed.

Lemma occurrences_cons t c s :
  occurrences t (c :: s)
  = (if starts_with t (c :: s) then 1 else 0) + occurrences t s.
Proof. done. Qed.

Lemma occurrences_app_r t x b : occurrences t b <= occurrences t (x ++ b).
Proof.
  induction x as [|c x IH]; [done|].
  rewrite <- app_comm_cons, occurrences_cons. lia.
Qed.

Lemma occurrences_app_ge t a y :
  t <> [] -> occurrences t a + occurrences t y <= occurrences t (a ++ y).
Proof.
  intros Ht. induction a as [|c a IH].
  - by rewrite occurrences_nil.
  - rewrite <- app_comm_cons, !occurrences_cons.
    destruct (starts_with t (c :: a)) eqn:E.
    + rewrite app_comm_cons, (starts_with_app_l _ _ _ E). lia.
    + lia.
Qed.

(** When no proper suffix of [t] is a prefix of [y], no occurrence of [t]
    in [a ++ y] straddles the seam. *)
Lemma occurrences_app t a y :
  t <> [] ->
  (forall j, 1 <= j < length t -> starts_with (drop j t) y = false) ->
  occurrences t (a ++ y) = occurrences t a + occurrences t y.
Proof.
  intros Ht Hy. induction a as [|c a IH].
  - by rewrite occurrences_nil.
  - rewrite <- app_comm_cons, !occurrences_cons, IH.
    destruct (starts_with t (c :: a)) eqn:E.
    + rewrite app_comm_cons, (starts_with_app_l _ _ _ E). lia.
    + destruct (starts_with t (c :: a ++ y)) eqn:E'; [|lia].
      rewrite app_comm_cons in E'.
      apply starts_with_app_split in E' as [E'|[Hlen E']]; [congruence|].
      rewrite Hy in E'; [done|]. simpl in *. lia.
Qed.

Lemma occurrences_blocked_from p t b k0 :
  (forall k, k0 <= k < length p -> comparable (drop k p) t = false) ->
  occurrences t (drop k0 p ++ b) = occurrences t b.
Proof.
  remember (length p - k0) as n eqn:Hn. revert k0 Hn.
  induction n as [|n IH]; intros k0 Hn H.
  - by rewrite drop_ge by lia.
  - destruct (drop k0 p) as [|c r] eqn:E.
    { apply drop_nil_inv in E. lia. }
    assert (drop (S k0) p = r) as Hr.
    { replace (S k0) with (k0 + 1) by lia. by rewrite <- drop_drop, E. }
    rewrite <- app_comm_cons, occurrences_cons, <- Hr, IH; [|lia|].
    + destruct (starts_with t (c :: drop (S k0) p ++ b)) eqn:E'; [|done].
      rewrite Hr, app_comm_cons, <- E in E'.
      apply starts_with_comparable in E'.
      rewrite comparable_sym, H in E'; [done|lia].
    + intros k Hk. apply H. lia.
Qed.

Lemma occurrences_blocked p t b :
  apart_from 0 p t = true -> occurrences t (p ++ b) = occurrences t b.
Proof.
  intros H. rewrite <- (drop_0 p) at 1. apply occurrences_blocked_from.
  intros k Hk. by apply (apart_from_spec 0).
Qed.

Lemma occurrences_self t b :
  t <> [] -> apart_from 1 t t = true ->
  occurrences t (t ++ b) = S (occurrences t b).
Proof.
  intros Ht H. destruct t as [|c t'] eqn:Et; [done|]. rewrite <- Et in *.
  assert (t ++ b = c :: drop 1 t ++ b) as -> by by rewrite Et.
  rewrite occurrences_cons.
  assert (starts_with t (c :: drop 1 t ++ b) = true) as ->.
  { apply starts_with_prefix. exists b. by rewrite Et. }
  rewrite occurrences_blocked_from; [done|].
  intros k Hk. by apply (apart_from_spec 1).
Qed.


Lemma occurrences_pos_occurs t s : 0 < occurrences t s -> occurs_in t s.
Proof.
  induction s as [|c s IH].
  - simpl. destruct (starts_with t []) eqn:E; [|lia]. intros _.
    apply starts_with_prefix in E as [k Hk]. by exists [], k.
  - rewrite occurrences_cons. destruct (starts_with t (c :: s)) eqn:E.
    + intros _. apply starts_with_prefix in E as [k Hk]. by exists [], k.
    + intros H. destruct IH as (a & b & ->); [lia|]. by exists (c :: a), b.
Qed.

(** ** [indexOf] and [String_replace] *)


Lemma indexOf_Some t s i :
  indexOf t s = Some i -> s = take i s ++ t ++ drop (i + length t) s.
Proof.
  revert i. induction s as [|c s IH]; intros i; simpl.
  - destruct (starts_with t []) eqn:E; [|done]. intros [= <-].
    apply starts_with_prefix in E as [k Hk].
    symmetry in Hk. apply app_eq_nil in Hk as [-> ->]. done.
  - destruct (starts_with t (c :: s)) eqn:E.
    + intros [= <-]. apply starts_with_prefix in E as [k Hk].
      rewrite Hk at 1. simpl. by rewrite Hk, drop_app_length.
    + destruct (indexOf t s) as [j|] eqn:Ej; [|done]. simpl.
      intros [= <-]. simpl. f_equal. by apply IH.
Qed.

Lemma indexOf_first t a b :
  t <> [] -> apart_from 1 t t = true -> occurrences t a = 0 ->
  indexOf t (a ++ t ++ b) = Some (length a).
Proof.
  intros Ht Hself. induction a as [|c a IH]; intros Ha.
  - destruct t as [|d t]; [done|].
    change ([] ++ (d :: t) ++ b) with (d :: t ++ b).
    cbn [indexOf].
    assert (starts_with (d :: t) (d :: t ++ b) = true) as ->; [|done].
    apply (starts_with_app (d :: t)).
  - rewrite occurrences_cons in Ha.
    destruct (starts_with t (c :: a)) eqn:E; [done|].
    rewrite <- app_comm_cons. cbn [indexOf].
    destruct (starts_with t (c :: a ++ t ++ b)) eqn:E'.
    + rewrite app_comm_cons in E'.
      apply starts_with_app_split in E' as [E'|[Hlen E']]; [congruence|].
      apply starts_with_comparable in E'.
      rewrite (apart_from_spec 1) in E'; [done|done|]. simpl in *. lia.
    + rewrite IH by done. done.
Qed.

Lemma GetSubstitution_plain matched str position v :
  DOLLAR ∉ v -> GetSubstitution matched str position v = v.
Proof.
  induction v as [|c v IH]; [done|].
  intros [Hc Hv]%not_elem_of_cons. cbn [GetSubstitution].
  assert ((c =? DOLLAR)%N = false) as -> by (apply N.eqb_neq; congruence).
  by rewrite IH.
Qed.


Lemma String_replace_first t a b v :
  t <> [] -> apart_from 1 t t = true -> occurrences t a = 0 ->
  String_replace (a ++ t ++ b) t v
  = a ++ GetSubstitution t (a ++ t ++ b) (length a) v ++ b.
Proof.
  intros Ht Hself Ha. unfold String_replace.
  rewrite indexOf_first by done.
  rewrite take_app_length. f_equal. f_equal.
  rewrite drop_app_add. by rewrite drop_app_length.
Qed.

Lemma no_straddle t p b :
  apart_from 1 t p = true ->
  forall j, 1 <= j < length t -> starts_with (drop j t) (p ++ b) = false.
Proof.
  intros H j Hj. destruct (starts_with (drop j t) (p ++ b)) eqn:E; [|done].
  apply starts_with_comparable in E.
  by rewrite (apart_from_spec 1 t p j) in E.
Qed.

(** One substitution uses up at most one occurrence of its own token and
    none of a token that cannot overlap it. *)
Lemma String_replace_keeps_other t p s v :
  t <> [] -> apart_from 1 t p = true -> apart_from 0 p t = true ->
  occurrences t s <= occurrences t (String_replace s p v).
Proof.
  intros Ht Htp Hpt. unfold String_replace.
  destruct (indexOf p s) as [i|] eqn:E; [|done].
  apply indexOf_Some in E. rewrite E at 1.
  set (a := take i s). set (b := drop (i + length p) s).
  set (g := GetSubstitution p s i v).
  rewrite (occurrences_app t a (p ++ b)), occurrences_blocked;
    [|done|done|by apply no_straddle].
  etrans; [|apply occurrences_app_ge; done].
  pose proof (occurrences_app_r t g b). lia.
Qed.

Lemma String_replace_uses_one t s v :
  t <> [] -> apart_from 1 t t = true ->
  occurrences t s <= S (occurrences t (String_replace s t v)).
Proof.
  intros Ht Hself. unfold String_replace.
  destruct (indexOf t s) as [i|] eqn:E; [|lia].
  apply indexOf_Some in E. rewrite E at 1.
  set (a := take i s). set (b := drop (i + length t) s).
  set (g := GetSubstitution t s i v).
  rewrite (occurrences_app t a (t ++ b)), occurrences_self;
    [|done|done|done|by apply no_straddle].
  pose proof (occurrences_app_ge t a (g ++ b) Ht).
  pose proof (occurrences_app_r t g b). lia.
Qed.

(** ** The template renderer *)

Lemma elem_of_pen_tokens t :
  t ∈ pen_tokens ->
  t = TOK_html \/ t = TOK_title \/ t = TOK_url \/ t = TOK_style
  \/ t = TOK_javascript \/ t = TOK_resources_javascript
  \/ t = TOK_resources_style.
Proof.
  unfold pen_tokens. rewrite !elem_of_cons, elem_of_nil. tauto.
Qed.



Ltac keeps_other :=
  apply String_replace_keeps_other; [done|reflexivity|reflexivity].
Ltac uses_one :=
  apply String_replace_uses_one; [done|reflexivity].

(** The chain of seven substitutions removes at most one occurrence of any
    of its tokens. *)
Lemma render_pen_occurrences T pen content resources t :
  t ∈ pen_tokens ->
  occurrences t T <= S (occurrences t (render_pen T pen content resources)).
Proof.
  intros Ht. unfold render_pen.
  destruct (elem_of_pen_tokens t Ht) as [->|[->|[->|[->|[->|[->| ->]]]]]].
  all: repeat first
    [ apply Nat.le_refl
    | (etrans; [|uses_one]); repeat (etrans; [|keeps_other]); apply Nat.le_refl
    | etrans; [|apply le_n_S; keeps_other] ].
Qed.

(** C10: a substitution replaces the first occurrence of its token and
    keeps everything behind it, later occurrences included; over the whole
    chain at most one occurrence of each token of the pen template
    disappears, so a token that occurs more than once in the template is
    still in the rendered document; likewise for [{{list}}] in the index
    template. *)
Theorem only_first_occurrence_replaced :
  (forall t a b v,
     t ∈ TOK_list :: pen_tokens -> occurrences t a = 0 ->
     String_replace (a ++ t ++ b) t v
     = a ++ GetSubstitution t (a ++ t ++ b) (length a) v ++ b)
  /\ (forall T pen content resources t,
        t ∈ pen_tokens ->
        occurrences t T
        <= S (occurrences t (render_pen T pen content resources)))
  /\ (forall T pen content resources t,
        t ∈ pen_tokens -> 2 <= occurrences t T ->
        occurs_in t (render_pen T pen content resources))
  /\ (forall T pens,
        occurrences TOK_list T
        <= S (occurrences TOK_list (render_index T pens)))
  /\ (forall T pens,
        2 <= occurrences TOK_list T -> occurs_in TOK_list (render_index T pens)).
Proof.
  split; [|split; [|split; [|split]]].
  - intros t a b v Ht Ha. apply String_replace_first; [| |done].
    + apply elem_of_cons in Ht as [->|Ht]; [done|].
      destruct (elem_of_pen_tokens t Ht) as [->|[->|[->|[->|[->|[->| ->]]]]]];
        done.
    + apply elem_of_cons in Ht as [->|Ht]; [reflexivity|].
      destruct (elem_of_pen_tokens t Ht) as [->|[->|[->|[->|[->|[->| ->]]]]]];
        reflexivity.
  - intros. by apply render_pen_occurrences.
  - intros T pen content resources t Ht H2. apply occurrences_pos_occurs.
    pose proof (render_pen_occurrences T pen content resources t Ht). lia.
  - intros. unfold render_index. uses_one.
  - intros T pens H2. apply occurrences_pos_occurs.
    assert (occurrences TOK_list T
            <= S (occurrences TOK_list (render_index T pens))) as H
      by (unfold render_index; uses_one).
    lia.
Qed.

Lemma only_first_occurrence_replaced_witness :
  String_replace (cus "<b>" ++ TOK_title ++ cus "</b>" ++ TOK_title) TOK_title
    (cus "Pen")
  = cus "<b>" ++ cus "Pen" ++ cus "</b>" ++ TOK_title
  /\ occurrences TOK_title (cus "{{title}}{{title}}{{title}}")
     <= S (occurrences TOK_title
             (render_pen (cus "{{title}}{{title}}{{title}}") sample_pen []
                no_resources))
  /\ occurs_in TOK_title
       (render_pen (cus "<title>{{title}}</title><h1>{{title}}</h1>")
          sample_pen [] no_resources).
Proof.
  destruct only_first_occurrence_replaced as (H1 & H2 & H3 & _).
  split; [|split].
  - rewrite (H1 TOK_title (cus "<b>") (cus "</b>" ++ TOK_title) (cus "Pen"));
      [reflexivity| |reflexivity].
    unfold pen_tokens. rewrite !elem_of_cons. tauto.
  - apply H2. unfold pen_tokens. rewrite !elem_of_cons. tauto.
  - apply H3; [unfold pen_tokens; rewrite !elem_of_cons; tauto|].
    vm_compute. lia.
Defined.

(** ** External resources *)

Lemma collect_inputs_from acc inputs :
  fold_left (fun acc value =>
               let val := trim value in
               if is_nil val then acc else acc ++ [val]) inputs acc
  = acc ++ filter (fun v => v <> []) (trim <$> inputs).
Proof.
  revert acc. induction inputs as [|v r IH]; intros acc; simpl.
  - by rewrite app_nil_r.
  - rewrite IH. destruct (trim v) eqn:E; simpl.
    + by rewrite filter_cons_False by naive_solver.
    + rewrite filter_cons_True by done. by rewrite <- app_assoc.
Qed.

Lemma collect_inputs_filter inputs :
  collect_inputs inputs = filter (fun v => v <> []) (trim <$> inputs).
Proof. apply (collect_inputs_from []). Qed.





Lemma not_elem_of_forallb (c : N) s :
  forallb (fun d => negb (d =? c)%N) s = true -> c ∉ s.
Proof.
  rewrite forallb_forall. intros H Hc%list_elem_of_In. apply H in Hc.
  by rewrite N.eqb_refl in Hc.
Qed.

Ltac absent := apply not_elem_of_forallb; reflexivity.





(** ** The editors and the three content slots *)







(** ** Rendering a pen without content *)




























(** ** The download loop *)

#[local] Arguments cus : simpl never.
#[local] Arguments titleToFilename : simpl never.
#[local] Arguments render_pen : simpl never.
#[local] Arguments trim : simpl never.

Section PipelineFacts.

Variable web : jsstring -> option DOM.
Variable querystring_stringify : jsstring -> Z -> jsstring.

Lemma download_pen_skip pen T pensPath debug debugPath st :
  is_Some (files st !! pen_path pensPath pen) ->
  download_pen web pen T pensPath debug debugPath st
  = (Ok tt, skipped st pen (pen_path pensPath pen)).
Proof.
  intros H. unfold download_pen, bind, push, set_pens, existsSync. simpl.
  fold (pen_path pensPath pen). by rewrite bool_decide_eq_true_2.
Qed.

Lemma bind_Ok {A B} (m : M A) (k : A -> M B) st a st' :
  m st = (Ok a, st') -> (x <- m ;; k x) st = k a st'.
Proof. intros H. unfold bind. by rewrite H. Qed.

Lemma waitForSelector_resolves s st :
  resolves (document st) s = true ->
  waitForSelector s st = (Ok tt, (emit (EvWaitForSelector s) st).2).
Proof.
  intros H. unfold waitForSelector, bind, emit, get_document. cbn.
  by rewrite H.
Qed.

Lemma click_resolves s st :
  resolves (document st) s = true ->
  click s st = (Ok tt, (emit (EvClick s) st).2).
Proof.
  intros H. unfold click, bind, emit, get_document. cbn. by rewrite H.
Qed.

Lemma goto_loads url d st :
  web url = Some d ->
  goto web url st = (Ok tt, (load d (emit (EvGoto url) st).2).2).
Proof. intros H. unfold goto, bind, emit. by rewrite H. Qed.

Ltac norm_state :=
  cbn [fst snd files pens document trace emit load push set_pens log
         screenshot writeFileSync].

Lemma download_pen_extract pen T pensPath debug debugPath st d :
  files st !! pen_path pensPath pen = None ->
  extractable web pen d ->
  download_pen web pen T pensPath debug debugPath st
  = (Ok tt, extracted st pen T debug debugPath (pen_path pensPath pen) d).
Proof.
  intros H [Hweb Hres]. unfold download_pen. fold (pen_path pensPath pen).
  erewrite bind_Ok by reflexivity. norm_state.
  erewrite (bind_Ok (existsSync _) _ _ false).
  2:{ unfold existsSync. cbn [files].
      rewrite bool_decide_eq_false_2; [done|]. rewrite H. by intros [? ?]. }
  erewrite bind_Ok by reflexivity. norm_state.
  erewrite bind_Ok by (by apply goto_loads). norm_state.
  destruct debug.
  all: erewrite (bind_Ok (when _ _)) by reflexivity; norm_state.
  all: erewrite bind_Ok by (apply waitForSelector_resolves, Hres); norm_state.
  all: do 6 (erewrite bind_Ok by (apply click_resolves, Hres); norm_state).
  all: erewrite bind_Ok by reflexivity.
  all: erewrite bind_Ok by reflexivity.
  all: erewrite (bind_Ok (when _ _)) by reflexivity; norm_state.
  all: erewrite bind_Ok by reflexivity; norm_state.
  all: unfold extracted, extraction_events, rendered, log, emit; norm_state.
  all: f_equal; f_equal; rewrite <- ?app_assoc; reflexivity.
Qed.


Local Abbreviation step T pensPath debug debugPath :=
  (processed web T pensPath debug debugPath).
Local Abbreviation body T pensPath debug debugPath :=
  (fun pen => download_pen web pen T pensPath debug debugPath).



(** *** What a sequence of processed pens leaves behind *)









Lemma processed_existing T pensPath debug debugPath st pen :
  is_Some (files st !! pen_path pensPath pen) ->
  step T pensPath debug debugPath st pen
  = skipped st pen (pen_path pensPath pen).
Proof. intros [v Hv]. unfold processed. by rewrite Hv. Qed.

(** *** The index *)

Lemma index_list_from acc l :
  fold_left (fun list pen => list ++ anchor pen) l acc
  = acc ++ concat (map anchor l).
Proof.
  revert acc. induction l as [|p l IH]; intros acc; simpl.
  - by rewrite app_nil_r.
  - by rewrite IH, <- app_assoc.
Qed.

Lemma index_list_concat l : index_list l = concat (map anchor l).
Proof. apply (index_list_from []). Qed.



Lemma titleToFilename_trim s : titleToFilename (trim s) = titleToFilename s.
Proof. unfold titleToFilename. by rewrite trim_idem. Qed.

(** The anchor of a pen points at the file the loop tests and writes. *)
Lemma anchor_href pen :
  anchor pen
  = cus "<a href=" ++ [QUOTE] ++ titleToFilename (title pen) ++ cus ".html"
      ++ [QUOTE] ++ cus " target=" ++ [QUOTE] ++ cus "iframe" ++ [QUOTE]
      ++ cus ">" ++ trim (title pen) ++ cus "</a>".
Proof. unfold anchor. by rewrite titleToFilename_trim. Qed.


Lemma saveIndex_indexed pensPath IT st :
  (ps <- get_pens ;; saveIndex ps pensPath IT) st
  = (Ok tt, indexed pensPath IT st).
Proof. done. Qed.


(** *** Whole runs *)



Lemma download_returns l T pensPath debug debugPath st s1 :
  for_of l (body T pensPath debug debugPath) st = (Ok tt, s1) ->
  download web l T pensPath debug debugPath st = (Ok (pens s1), s1).
Proof. intros H. unfold download, bind. by rewrite H. Qed.


Lemma run_prologue {B} debug (k : M B) st :
  (emit (EvLaunch (negb debug)) ;;;
   set_pens [] ;;;
   when debug (emit EvSetViewport) ;;;
   k) st
  = k (started debug st).
Proof.
  erewrite bind_Ok by reflexivity. erewrite bind_Ok by reflexivity.
  erewrite (bind_Ok (when debug _) _ _ tt (started debug st)); [done|].
  unfold started, when, emit, ret.
  destruct debug; cbn; by rewrite <- ?app_assoc, ?app_nil_r.
Qed.

Lemma run_links o st T IT l s1 :
  files st !! penTemplate o = Some T ->
  files st !! indexTemplate o = Some IT ->
  links o = Some l ->
  for_of l (body T (pensPath o) (debug o) (debugPath o)) (started (debug o) st)
  = (Ok tt, s1) ->
  run web querystring_stringify o st
  = (Ok tt, finished (indexed (pensPath o) IT s1)).
Proof.
  intros HT HIT Hl Hfor. unfold run.
  erewrite bind_Ok by (unfold readFileSync; by rewrite HT).
  erewrite bind_Ok by (unfold readFileSync; by rewrite HIT).
  rewrite Hl, run_prologue.
  erewrite bind_Ok; [reflexivity|].
  erewrite bind_Ok by (by apply download_returns).
  apply saveIndex_indexed.
Qed.



(** *** Paths *)








End PipelineFacts.

(** ** [index.js] and the [run] module *)

Lemma for_pages_from_ext n page (body1 body2 : Z -> M unit) st :
  (forall p s, body1 p s = body2 p s) ->
  for_pages_from n page body1 st = for_pages_from n page body2 st.
Proof.
  intros H. revert page st. induction n as [|n IH]; intros page st; [done|].
  simpl. unfold bind. rewrite H. destruct (body2 page st) as [[[]|] st']; auto.
Qed.

Lemma bind_ext {A B} (m : M A) (k1 k2 : A -> M B) st :
  (forall a s, k1 a s = k2 a s) -> bind m k1 st = bind m k2 st.
Proof. intros H. unfold bind. destruct (m st) as [[a|] s]; auto. Qed.

(** X16: with diagnostics off, [index.js] is the [run] module called with
    the page range 1 to 4, no links and the two template paths: on every
    site and from every state the two give the same outcome and leave the
    same state. *)
Lemma index_js_is_run web querystring_stringify q pp dp st :
  IndexJs.main web querystring_stringify false q pp dp st
  = run web querystring_stringify
      {| searchQuery := q; links := None; pensPath := pp;
         debug := false; debugPath := dp; startPage := 1; endPage := 4;
         penTemplate := cus "assets/templates/pen.html";
         indexTemplate := cus "assets/templates/index.html" |} st.
Proof.
  unfold IndexJs.main, run, IndexJs.download.
  cbn [searchQuery links pensPath debug debugPath startPage
         endPage penTemplate indexTemplate].
  apply bind_ext. intros T s1. apply bind_ext. intros IT s2.
  apply bind_ext. intros _ s3. apply bind_ext. intros _ s4.
  apply bind_ext. intros _ s5.
  unfold bind at 1 3, for_pages.
  rewrite (for_pages_from_ext _ _ _
             (fun page =>
                log (MsgSearch q page) ;;;
                goto web (searchUrl ++ cus "/?"
                          ++ querystring_stringify q page) ;;;
                links <- evaluate evaluate_links ;;
                download web links T pp false dp ;;;
                pens <- get_pens ;;
                saveIndex pens pp IT)); [done|].
  intros p s. unfold download, saveIndex, bind.
  destruct (log _ s) as [[[]|] s6]; [|done].
  destruct (goto _ _ s6) as [[[]|] s7]; [|done].
  destruct (evaluate _ s7) as [[l|] s8]; [|done].
  by destruct (for_of l _ s8) as [[[]|] s9].
Qed.

(** ** Instances *)








(** ** The slug as the words of the title *)

Section Words.
Import Normalizer NormalizeSpec.

#[local] Arguments isAlnum : simpl never.
#[local] Arguments isDash : simpl never.
#[local] Arguments isWhiteSpace : simpl never.
#[local] Arguments lower : simpl never.

Lemma space_not_alnum c : isWhiteSpace c = true -> isAlnum c = false.
Proof. chars. Qed.

Lemma lower_alnum c : isAlnum (lower c) = isAlnum c.
Proof.
  unfold lower. destruct ((65 <=? c)%N && (c <=? 90)%N) eqn:E; [|done].
  destruct (isAlnum c) eqn:A, (isAlnum (c + 32)) eqn:B; try done; chars.
Qed.

Lemma alnum_words_cons_other c r :
  isAlnum c = false -> alnum_words (c :: r) = alnum_words r.
Proof. intros H. simpl. by rewrite H. Qed.

Lemma alnum_words_are_words s : forallb is_word (alnum_words s) = true.
Proof.
  induction s as [|c r IH]; [done|]. cbn [alnum_words].
  destruct (isAlnum c) eqn:Hc; [|done].
  destruct (starts_alnum r).
  - destruct (alnum_words r) as [|w ws]; simpl in *; unfold is_word in *;
      simpl; rewrite Hc; [done|].
    apply andb_true_iff in IH as [[_ Hw]%andb_true_iff Hws].
    by rewrite Hw, Hws.
  - cbn [forallb]. rewrite IH. unfold is_word. simpl. by rewrite Hc.
Qed.

Lemma alnum_words_nil s :
  alnum_words s = [] <-> forallb (fun c => negb (isAlnum c)) s = true.
Proof.
  induction s as [|c r IH]; [done|]. cbn [alnum_words forallb].
  destruct (isAlnum c) eqn:Hc; simpl; [|done].
  split; [|done]. destruct (starts_alnum r); [|done].
  by destruct (alnum_words r).
Qed.

Lemma starts_alnum_words r : starts_alnum r = true -> alnum_words r <> [].
Proof.
  destruct r as [|d t]; [done|]. simpl. intros Hd. rewrite Hd.
  destruct (starts_alnum t); [|done]. by destruct (alnum_words t).
Qed.

Lemma ends_non_alnum_all s :
  s <> [] -> forallb (fun c => negb (isAlnum c)) s = true ->
  ends_non_alnum s = true.
Proof.
  induction s as [|c r IH]; [done|]. intros _ [Hc Hr]%andb_true_iff.
  destruct r as [|d t]; [done|]. by apply IH.
Qed.

(** *** [join] *)

Lemma join_cons_cons sep x y r :
  join sep (x :: y :: r) = x ++ sep ++ join sep (y :: r).
Proof. done. Qed.

Lemma join_head sep c w ws :
  join sep ((c :: w) :: ws) = c :: join sep (w :: ws).
Proof. by destruct ws. Qed.

Lemma toLowerCase_app x y :
  toLowerCase (x ++ y) = toLowerCase x ++ toLowerCase y.
Proof. apply map_app. Qed.

Lemma toLowerCase_join ws :
  toLowerCase (join [DASH] ws) = join [DASH] (map toLowerCase ws).
Proof.
  induction ws as [|w ws IH]; [done|].
  destruct ws as [|w' ws]; [done|].
  rewrite join_cons_cons, !toLowerCase_app, IH. done.
Qed.

Lemma word_no_dash_start w :
  is_word w = true -> starts_with_dash w = false.
Proof.
  unfold is_word. destruct w as [|c w]; [done|]. simpl.
  intros [Hc _]%andb_true_iff. by apply alnum_not_dash.
Qed.

Lemma alnum_no_dash_end w :
  forallb isAlnum w = true -> ends_with_dash w = false.
Proof.
  induction w as [|c w IH]; [done|]. intros [Hc Hw]%andb_true_iff.
  destruct w as [|d w]; [by apply alnum_not_dash|]. by apply IH.
Qed.

Lemma ends_with_dash_app x y :
  y <> [] -> ends_with_dash (x ++ y) = ends_with_dash y.
Proof.
  intros Hy. induction x as [|c x IH]; [done|].
  rewrite <- app_comm_cons. destruct (x ++ y) eqn:E; [|done].
  by apply app_eq_nil in E as [_ ->].
Qed.

Lemma join_words_no_dash_start ws :
  forallb is_word ws = true -> starts_with_dash (join [DASH] ws) = false.
Proof.
  destruct ws as [|w ws]; [done|]. intros [Hw _]%andb_true_iff.
  pose proof (word_no_dash_start w Hw) as H.
  destruct w as [|c w]; [done|]. by rewrite join_head.
Qed.

Lemma join_words_nil ws :
  forallb is_word ws = true -> join [DASH] ws = [] -> ws = [].
Proof.
  destruct ws as [|w ws]; [done|]. intros [Hw _]%andb_true_iff.
  destruct w as [|c w]; [done|]. by rewrite join_head.
Qed.

Lemma join_words_no_dash_end ws :
  forallb is_word ws = true -> ends_with_dash (join [DASH] ws) = false.
Proof.
  induction ws as [|w ws IH]; [done|]. intros [Hw Hws]%andb_true_iff.
  destruct ws as [|w' ws].
  - apply alnum_no_dash_end. unfold is_word in Hw.
    by apply andb_true_iff in Hw as [_ ?].
  - rewrite join_cons_cons, !ends_with_dash_app; [by apply IH| |done].
    intros H. apply join_words_nil in H; done.
Qed.

Lemma strip_trailing_snoc x : strip_trailing (x ++ [DASH]) = x.
Proof.
  induction x as [|c x IH]; [done|].
  rewrite <- app_comm_cons. destruct (x ++ [DASH]) eqn:E.
  - by apply app_eq_nil in E as [_ ?].
  - change (strip_trailing (c :: n :: l)) with (c :: strip_trailing (n :: l)).
    by rewrite IH.
Qed.

Lemma ends_non_alnum_cons c d t :
  ends_non_alnum (c :: d :: t) = ends_non_alnum (d :: t).
Proof. done. Qed.

(** [collapse_runs] writes the words with one dash between them, one
    before them when the string starts outside the class, and one behind
    them when it ends outside the class. *)
Lemma collapse_runs_words s :
  collapse_runs s
  = (if starts_alnum s || is_nil s then [] else [DASH])
      ++ join [DASH] (alnum_words s)
      ++ (if ends_non_alnum s && negb (is_nil (alnum_words s))
          then [DASH] else []).
Proof.
  induction s as [|c r IH]; [done|].
  cbn [collapse_runs alnum_words starts_alnum is_nil].
  destruct (isAlnum c) eqn:Hc; cbn [orb].
  - destruct r as [|d t].
    + simpl. by rewrite Hc.
    + rewrite IH, ends_non_alnum_cons. cbn [starts_alnum is_nil].
      destruct (isAlnum d) eqn:Hd; cbn [orb].
      * pose proof (starts_alnum_words (d :: t) Hd) as Hne.
        destruct (alnum_words (d :: t)) as [|w ws]; [done|].
        by rewrite join_head.
      * destruct (alnum_words (d :: t)) as [|w ws] eqn:E.
        -- apply alnum_words_nil in E.
           rewrite (ends_non_alnum_all (d :: t)) by done. done.
        -- rewrite join_cons_cons. cbn [is_nil negb].
           by rewrite !andb_true_r.
  - destruct r as [|d t]; [simpl; by rewrite andb_false_r|].
    rewrite IH, ends_non_alnum_cons. cbn [starts_alnum is_nil].
    by destruct (isAlnum d).
Qed.

Lemma strip_collapse_words s :
  strip_trailing (strip_leading (collapse_runs s))
  = join [DASH] (alnum_words s).
Proof.
  rewrite collapse_runs_words.
  pose proof (alnum_words_are_words s) as Hw.
  set (J := join [DASH] (alnum_words s)).
  set (post := if ends_non_alnum s && negb (is_nil (alnum_words s))
               then [DASH] else []).
  assert (strip_trailing (J ++ post) = J) as Hpost.
  { subst post. destruct (ends_non_alnum s && negb (is_nil (alnum_words s))).
    - apply strip_trailing_snoc.
    - rewrite app_nil_r. by apply strip_trailing_id, join_words_no_dash_end. }
  destruct (starts_alnum s || is_nil s) eqn:E; [|by simpl].
  cbn [app].
  assert (strip_leading (J ++ post) = J ++ post) as ->; [|done].
  pose proof (join_words_no_dash_start _ Hw) as Hs. fold J in Hs.
  destruct J as [|x J'] eqn:EJ.
  - subst J. apply join_words_nil in EJ; [|done].
    subst post. by rewrite EJ, andb_false_r.
  - simpl in *. by rewrite Hs.
Qed.

(** *** Words and [trim] *)

Lemma alnum_words_trimStart s : alnum_words (trimStart s) = alnum_words s.
Proof.
  induction s as [|c r IH]; [done|]. cbn [trimStart].
  destruct (isWhiteSpace c) eqn:Hc; [|done].
  by rewrite alnum_words_cons_other by by apply space_not_alnum.
Qed.

Lemma trimEnd_nil_starts s : trimEnd s = [] -> starts_alnum s = false.
Proof.
  destruct s as [|c r]; [done|]. simpl.
  destruct (trimEnd r); [|done].
  destruct (isWhiteSpace c) eqn:Hc; [|done]. intros _.
  by apply space_not_alnum.
Qed.

Lemma trimEnd_starts s :
  trimEnd s <> [] -> starts_alnum (trimEnd s) = starts_alnum s.
Proof.
  destruct s as [|c r]; [done|]. simpl.
  destruct (trimEnd r); [|done]. by destruct (isWhiteSpace c).
Qed.

Lemma alnum_words_cons c r :
  alnum_words (c :: r)
  = if isAlnum c then
      if starts_alnum r then
        match alnum_words r with
        | w :: ws => (c :: w) :: ws
        | [] => [[c]]
        end
      else [c] :: alnum_words r
    else alnum_words r.
Proof. done. Qed.

Lemma alnum_words_trimEnd s : alnum_words (trimEnd s) = alnum_words s.
Proof.
  induction s as [|c r IH]; [done|]. cbn [trimEnd].
  destruct (trimEnd r) as [|d t] eqn:E.
  - pose proof (trimEnd_nil_starts r E) as Hr. simpl in IH.
    destruct (isWhiteSpace c) eqn:Hc.
    + by rewrite alnum_words_cons_other by by apply space_not_alnum.
    + rewrite (alnum_words_cons c r), Hr, <- IH. done.
  - assert (starts_alnum (d :: t) = starts_alnum r) as Hs.
    { rewrite <- E. apply trimEnd_starts. by rewrite E. }
    by rewrite (alnum_words_cons c (d :: t)), (alnum_words_cons c r), Hs, IH.
Qed.

Lemma alnum_words_trim s : alnum_words (trim s) = alnum_words s.
Proof. unfold trim. by rewrite alnum_words_trimEnd, alnum_words_trimStart. Qed.

(** *** The words of a joined list of words *)

Lemma alnum_words_word_app w x :
  is_word w = true -> starts_alnum x = false ->
  alnum_words (w ++ x) = w :: alnum_words x.
Proof.
  unfold is_word. intros [Hne Hw]%andb_true_iff Hx.
  induction w as [|c w IH]; [done|]. clear Hne.
  cbn [forallb] in Hw. apply andb_true_iff in Hw as [Hc Hw].
  rewrite <- app_comm_cons, alnum_words_cons, Hc.
  destruct w as [|d w].
  - simpl. by rewrite Hx.
  - rewrite IH by done. simpl. simpl in Hw.
    apply andb_true_iff in Hw as [Hd _]. by rewrite Hd.
Qed.

Lemma alnum_words_join ws :
  forallb is_word ws = true -> alnum_words (join [DASH] ws) = ws.
Proof.
  induction ws as [|w ws IH]; [done|]. intros [Hw Hws]%andb_true_iff.
  destruct ws as [|w' ws].
  - rewrite <- (app_nil_r (join _ _)). simpl join.
    by rewrite alnum_words_word_app.
  - rewrite join_cons_cons. rewrite alnum_words_word_app by done.
    change ([DASH] ++ join [DASH] (w' :: ws))
      with (DASH :: join [DASH] (w' :: ws)).
    rewrite alnum_words_cons_other by done. by rewrite IH.
Qed.

Lemma toLowerCase_words ws :
  forallb is_word ws = true -> forallb is_word (map toLowerCase ws) = true.
Proof.
  induction ws as [|w ws IH]; [done|]. simpl.
  intros [Hw Hws]%andb_true_iff. rewrite IH by done.
  rewrite andb_true_r. unfold is_word in *.
  apply andb_true_iff in Hw as [Hne Hw]. apply andb_true_iff. split.
  - by destruct w.
  - clear Hne. induction w as [|c w IHw]; [done|]. simpl in *.
    apply andb_true_iff in Hw as [Hc Hw]. by rewrite lower_alnum, Hc, IHw.
Qed.

Lemma titleToFilename_words s :
  titleToFilename s = join [DASH] (map toLowerCase (alnum_words s)).
Proof.
  rewrite titleToFilename_normalize. unfold normalize.
  by rewrite strip_collapse_words, toLowerCase_join, alnum_words_trim.
Qed.

(** X1: the slug of a title is its maximal runs of letters and digits,
    lowercased and joined by single dashes. *)
Theorem slug_is_joined_words (s : jsstring) :
  titleToFilename s = join [DASH] (map toLowerCase (alnum_words s)).
Proof. apply titleToFilename_words. Qed.

(** X2: both calls of [trim] in [titleToFilename] are redundant: the four
    steps between them give the same result on the untrimmed title, and a
    title trimmed beforehand has the same slug. *)
Theorem trims_are_redundant (s : jsstring) :
  titleToFilename s
  = toLowerCase (strip_edge_dashes (replace_dash_runs (replace_non_alnum s)))
  /\ titleToFilename (trim s) = titleToFilename s.
Proof.
  split.
  - rewrite titleToFilename_words, strip_edge_leading_trailing.
    unfold replace_dash_runs. rewrite (proj1 (dash_runs_collapse _)).
    by rewrite strip_collapse_words, toLowerCase_join.
  - by rewrite !titleToFilename_words, alnum_words_trim.
Qed.

(** X3: the slug is empty exactly when the title holds no letter and no
    digit, so every such title is given the file name [.html]. *)
Theorem empty_slug_iff (s : jsstring) :
  titleToFilename s = [] <-> forall c, c ∈ s -> isAlnum c = false.
Proof.
  rewrite titleToFilename_words. split.
  - intros H%join_words_nil;
      [|apply toLowerCase_words, alnum_words_are_words].
    apply map_eq_nil in H. apply alnum_words_nil in H.
    rewrite forallb_forall in H. intros c Hc%list_elem_of_In.
    by apply negb_true_iff, H.
  - intros H.
    assert (alnum_words s = []) as ->; [|done].
    apply alnum_words_nil, forallb_forall.
    intros c Hc%list_elem_of_In. by apply negb_true_iff, H.
Qed.

Lemma empty_slug_iff_witness :
  titleToFilename (cus " ?!... ") = [].
Proof.
  apply empty_slug_iff. intros c Hc%list_elem_of_In.
  vm_compute in Hc. by repeat (destruct Hc as [<-|Hc]; [reflexivity|]).
Defined.

(** X4: two titles are given the same slug exactly when their lowercased
    words are the same; the words of a slug are the lowercased words of
    the title. *)
Theorem slug_collision_iff (s1 s2 : jsstring) :
  alnum_words (titleToFilename s1) = map toLowerCase (alnum_words s1)
  /\ (titleToFilename s1 = titleToFilename s2
      <-> map toLowerCase (alnum_words s1) = map toLowerCase (alnum_words s2)).
Proof.
  assert (forall s, alnum_words (titleToFilename s)
                    = map toLowerCase (alnum_words s)) as Hrt.
  { intros s. rewrite titleToFilename_words.
    apply alnum_words_join, toLowerCase_words, alnum_words_are_words. }
  split; [apply Hrt|]. split.
  - intros H. by rewrite <- !Hrt, H.
  - intros H. by rewrite !titleToFilename_words, H.
Qed.

Lemma slug_collision_iff_witness :
  titleToFilename (cus "Flexbox: Masonry") = titleToFilename (cus " flexbox masonry!! ").
Proof.
  apply (proj2 (slug_collision_iff (cus "Flexbox: Masonry")
                  (cus " flexbox masonry!! "))).
  reflexivity.
Defined.

End Words.

(** ** Dollar patterns in substituted text *)

Lemma GetSubstitution_plain_prefix matched str position u x :
  DOLLAR ∉ u ->
  GetSubstitution matched str position (u ++ x)
  = u ++ GetSubstitution matched str position x.
Proof.
  induction u as [|c u IH]; [done|].
  intros [Hc Hu]%not_elem_of_cons. rewrite <- !app_comm_cons.
  cbn [GetSubstitution].
  assert ((c =? DOLLAR)%N = false) as -> by (apply N.eqb_neq; congruence).
  by rewrite IH.
Qed.

(** X5: text substituted for a token is not always inserted as it is.  At
    the first occurrence of the token, in a value that is otherwise free of
    dollar signs, [$$] is inserted as one dollar, [$&] as the token itself
    (which so stays in the document), [$`] as the text before the token
    and [$'] as the text behind it. *)
Theorem dollar_patterns_expand (t a b u v : jsstring) :
  t ∈ TOK_list :: pen_tokens -> occurrences t a = 0 ->
  DOLLAR ∉ u -> DOLLAR ∉ v ->
  String_replace (a ++ t ++ b) t (u ++ [DOLLAR; DOLLAR] ++ v)
    = a ++ (u ++ [DOLLAR] ++ v) ++ b
  /\ String_replace (a ++ t ++ b) t (u ++ [DOLLAR; AMP] ++ v)
     = a ++ (u ++ t ++ v) ++ b
  /\ String_replace (a ++ t ++ b) t (u ++ [DOLLAR; BACKTICK] ++ v)
     = a ++ (u ++ a ++ v) ++ b
  /\ String_replace (a ++ t ++ b) t (u ++ [DOLLAR; APOS] ++ v)
     = a ++ (u ++ b ++ v) ++ b.
Proof.
  intros Ht Ha Hu Hv.
  assert (t <> [] /\ apart_from 1 t t = true) as [Hne Hself].
  { apply elem_of_cons in Ht as [->|Ht]; [done|].
    destruct (elem_of_pen_tokens t Ht) as [->|[->|[->|[->|[->|[->| ->]]]]]];
      done. }
  rewrite !String_replace_first by done.
  rewrite !(GetSubstitution_plain_prefix _ _ _ u) by done.
  cbn [app GetSubstitution]. rewrite !N.eqb_refl.
  change (AMP =? DOLLAR)%N with false. change (BACKTICK =? DOLLAR)%N with false.
  change (APOS =? DOLLAR)%N with false.
  change (BACKTICK =? AMP)%N with false. change (APOS =? AMP)%N with false.
  change (APOS =? BACKTICK)%N with false. cbn iota.
  rewrite !GetSubstitution_plain by done.
  rewrite take_app_length, drop_app_add, drop_app_length.
  by rewrite <- !app_assoc.
Qed.

Lemma dollar_patterns_expand_witness :
  String_replace (cus "<script>{{javascript}}</script>") TOK_javascript
    (cus "s.replace(/[.*+?]/g, '\$&')")
  = cus "<script>s.replace(/[.*+?]/g, '\{{javascript}}')</script>".
Proof.
  destruct (dollar_patterns_expand TOK_javascript (cus "<script>")
              (cus "</script>") (cus "s.replace(/[.*+?]/g, '\") (cus "')"))
    as (_ & H & _).
  - unfold pen_tokens. rewrite !elem_of_cons. tauto.
  - reflexivity.
  - absent.
  - absent.
  - exact H.
Defined.

(** ** The values of the resource inputs *)

(** X17: the values collected from the resource inputs are exactly the
    trimmed values of the inputs that are not empty; a collected value has
    no white space left at either end, and an input of white space only
    contributes nothing. *)
Theorem collected_inputs_are_trimmed (inputs : list jsstring) (v : jsstring) :
  v ∈ collect_inputs inputs
  <-> v <> [] /\ trim v = v /\ exists i, i ∈ inputs /\ trim i = v.
Proof.
  rewrite collect_inputs_filter, list_elem_of_filter, list_elem_of_fmap.
  split.
  - intros (Hne & i & -> & Hi). split; [done|].
    split; [apply trim_idem|]. eauto.
  - intros (Hne & _ & i & Hi & <-). eauto.
Qed.

Lemma collected_inputs_are_trimmed_witness :
  cus "https://cdn.example.com/a.js"
  ∈ collect_inputs [cus "  "; cus " https://cdn.example.com/a.js "].
Proof.
  apply collected_inputs_are_trimmed. split; [discriminate|].
  split; [vm_compute; reflexivity|].
  exists (cus " https://cdn.example.com/a.js ").
  split; [|vm_compute; reflexivity].
  right. left.
Defined.

(** ** The anchors of the index *)

(** X18: the list put into the index is the anchors of the collection in
    order, one per entry (a pen pushed twice is listed twice), and the
    address of each anchor is the name of the file that the loop tests and
    writes for the pen: trimming the title before the slug is taken, as
    [saveIndex] does, gives the slug that [download] takes from the
    untrimmed title. *)
Theorem index_anchors_name_pen_files (pensPath : jsstring)
    (l : list PenReference) :
  index_list l
  = concat (map (fun pen =>
                   cus "<a href=" ++ [QUOTE]
                     ++ drop (length pensPath) (pen_path pensPath pen)
                     ++ [QUOTE] ++ cus " target=" ++ [QUOTE] ++ cus "iframe"
                     ++ [QUOTE] ++ cus ">" ++ trim (title pen) ++ cus "</a>")
              l).
Proof.
  rewrite index_list_concat. f_equal. apply map_ext. intros pen.
  rewrite anchor_href. unfold pen_path.
  by rewrite drop_app_length, <- !app_assoc.
Qed.

(** ** Outcomes of the loop body, the loop and a run *)

Section Outcomes.

Variable web : jsstring -> option DOM.
Variable querystring_stringify : jsstring -> Z -> jsstring.

#[local] Arguments cus : simpl never.
#[local] Arguments titleToFilename : simpl never.
#[local] Arguments render_pen : simpl never.
#[local] Arguments trim : simpl never.

Ltac norm_state :=
  cbn [fst snd files pens document trace emit load push set_pens log
         screenshot writeFileSync].

Lemma bind_Rejected {A B} (m : M A) (k : A -> M B) st st' :
  m st = (Rejected, st') -> (x <- m ;; k x) st = (Rejected, st').
Proof. intros H. unfold bind. by rewrite H. Qed.

Lemma waitForSelector_rejects s st :
  resolves (document st) s = false ->
  waitForSelector s st = (Rejected, (emit (EvWaitForSelector s) st).2).
Proof.
  intros H. unfold waitForSelector, bind, emit, get_document. cbn.
  by rewrite H.
Qed.

Lemma click_rejects s st :
  resolves (document st) s = false ->
  click s st = (Rejected, (emit (EvClick s) st).2).
Proof.
  intros H. unfold click, bind, emit, get_document. cbn. by rewrite H.
Qed.

Lemma goto_rejects url st :
  web url = None ->
  goto web url st = (Rejected, (emit (EvGoto url) st).2).
Proof. intros H. unfold goto, bind, emit. by rewrite H. Qed.

Ltac advance :=
  first
    [ erewrite bind_Ok
        by (first [ apply waitForSelector_resolves; norm_state; eassumption
                  | apply click_resolves; norm_state; eassumption ]);
      norm_state
    | erewrite bind_Rejected
        by (first [ apply waitForSelector_rejects; norm_state; eassumption
                  | apply click_rejects; norm_state; eassumption ]);
      norm_state ].

(** The three outcomes of the loop body: the pen is skipped, it is
    extracted, or the extraction rejects with the file store as it was. *)
Lemma download_pen_outcome pen T pensPath debug debugPath st r st' :
  download_pen web pen T pensPath debug debugPath st = (r, st') ->
  match r with
  | Ok _ =>
      (is_Some (files st !! pen_path pensPath pen)
       /\ st' = skipped st pen (pen_path pensPath pen))
      \/ (files st !! pen_path pensPath pen = None
          /\ exists d, extractable web pen d
                       /\ st' = extracted st pen T debug debugPath
                                  (pen_path pensPath pen) d)
  | Rejected =>
      files st !! pen_path pensPath pen = None
      /\ files st' = files st
      /\ pens st' = pens st ++ [pen]
      /\ ~ exists d, extractable web pen d
  end.
Proof.
  destruct (files st !! pen_path pensPath pen) as [v|] eqn:Hv.
  { rewrite download_pen_skip by (rewrite Hv; eauto).
    intros [= <- <-]. left. eauto. }
  destruct (web (url pen)) as [d|] eqn:Hd.
  2:{ unfold download_pen. fold (pen_path pensPath pen).
      erewrite bind_Ok by reflexivity. norm_state.
      erewrite (bind_Ok (existsSync _) _ _ false).
      2:{ unfold existsSync. cbn [files].
          rewrite bool_decide_eq_false_2; [done|]. rewrite Hv. by intros [? ?]. }
      erewrite bind_Ok by reflexivity. norm_state.
      erewrite bind_Rejected by (by apply goto_rejects). norm_state.
      intros [= <- <-]. repeat split; try done.
      intros (d & Hd' & _). congruence. }
  destruct (resolves d ResultIframeHttps) eqn:H1,
           (resolves d (ActionsButton BoxHtml)) eqn:H2,
           (resolves d (ViewCompiled BoxHtml)) eqn:H3,
           (resolves d (ActionsButton BoxCss)) eqn:H4,
           (resolves d (ViewCompiled BoxCss)) eqn:H5,
           (resolves d (ActionsButton BoxJs)) eqn:H6,
           (resolves d (ViewCompiled BoxJs)) eqn:H7.
  1:{ assert (extractable web pen d) as He.
      { split; [done|]. by intros [|[]|[]]. }
      rewrite (download_pen_extract _ _ _ _ _ _ _ d) by done.
      intros [= <- <-]. right. eauto. }
  all: unfold download_pen; fold (pen_path pensPath pen).
  all: erewrite bind_Ok by reflexivity; norm_state.
  all: erewrite (bind_Ok (existsSync _) _ _ false);
    [|unfold existsSync; cbn [files];
      rewrite bool_decide_eq_false_2; [done|]; rewrite Hv; by intros [? ?]].
  all: erewrite bind_Ok by reflexivity; norm_state.
  all: erewrite bind_Ok by (by apply goto_loads); norm_state.
  all: destruct debug.
  all: erewrite (bind_Ok (when _ _)) by reflexivity; norm_state.
  all: repeat advance.
  all: intros [= <- <-]; repeat split; try done.
  all: intros (d' & [Hd' Hres]); rewrite Hd in Hd'; injection Hd' as <-.
  all: congruence.
Qed.

Lemma keeps_files_refl st : keeps_files st st.
Proof. by intros k v. Qed.

Lemma keeps_files_trans s1 s2 s3 :
  keeps_files s1 s2 -> keeps_files s2 s3 -> keeps_files s1 s3.
Proof. intros H1 H2 k v Hk. by apply H2, H1. Qed.

Lemma download_pen_frame pen T pensPath debug debugPath st r st' :
  download_pen web pen T pensPath debug debugPath st = (r, st') ->
  pens st' = pens st ++ [pen]
  /\ keeps_files st st'
  /\ (forall k, k <> pen_path pensPath pen -> files st' !! k = files st !! k)
  /\ (r = Rejected -> files st' = files st)
  /\ (r = Ok tt -> is_Some (files st' !! pen_path pensPath pen)).
Proof.
  intros H%download_pen_outcome. destruct r as [[]|].
  - destruct H as [[Hv ->]|(Hv & d & _ & ->)]; cbn [pens files skipped extracted].
    + repeat split; try done. by intros k v.
    + split; [done|]. split; [|split; [|split; [done|]]].
      * intros k v Hk. cbn [files extracted].
        rewrite lookup_insert_ne; [done|]. intros <-. congruence.
      * intros k Hk. by rewrite lookup_insert_ne.
      * intros _. rewrite lookup_insert_eq. eauto.
  - destruct H as (Hv & Hf & Hp & _). split; [done|]. split; [|split; [|done]].
    + intros k v. by rewrite Hf.
    + intros k _. by rewrite Hf.
Qed.


Lemma for_of_outcome l T pensPath debug debugPath st r st' :
  for_of l (fun pen => download_pen web pen T pensPath debug debugPath) st
  = (r, st') ->
  keeps_files st st'
  /\ match r with
     | Ok _ =>
         pens st' = pens st ++ l
         /\ forall p, p ∈ l -> is_Some (files st' !! pen_path pensPath p)
     | Rejected =>
         exists l1 p l2,
           l = l1 ++ p :: l2
           /\ pens st' = pens st ++ l1 ++ [p]
           /\ (forall q, q ∈ l1 -> is_Some (files st' !! pen_path pensPath q))
           /\ files st' !! pen_path pensPath p = None
           /\ ~ exists d, extractable web p d
     end.
Proof.
  revert st. induction l as [|p l IH]; intros st.
  - intros [= <- <-]. split; [apply keeps_files_refl|].
    split; [by rewrite app_nil_r|]. by intros p ?%elem_of_nil.
  - cbn [for_of]. unfold bind.
    destruct (download_pen web p T pensPath debug debugPath st)
      as [[[]|] s1] eqn:E.
    + intros H. apply IH in H as [Hk H].
      pose proof (download_pen_frame _ _ _ _ _ _ _ _ E)
        as (Hp & Hk1 & _ & _ & Hs).
      split; [by eapply keeps_files_trans|].
      destruct r as [[]|].
      * destruct H as [Hpens Hall]. split.
        -- by rewrite Hpens, Hp, <- app_assoc.
        -- intros q [->|Hq]%elem_of_cons; [|by apply Hall].
           destruct (Hs eq_refl) as [v Hv]. exists v. by apply Hk.
      * destruct H as (l1 & q & l2 & -> & Hpens & Hall & Hq & Hne).
        exists (p :: l1), q, l2. split; [done|]. split.
        { by rewrite Hpens, Hp, <- !app_assoc. }
        split; [|done].
        intros x [->|Hx]%elem_of_cons; [|by apply Hall].
        destruct (Hs eq_refl) as [v Hv]. exists v. by apply Hk.
    + intros [= <- <-].
      pose proof (download_pen_frame _ _ _ _ _ _ _ _ E)
        as (Hp & Hk1 & _ & Hf & _).
      split; [done|]. exists [], p, l. split; [done|].
      split; [done|]. split; [by intros q ?%elem_of_nil|].
      apply download_pen_outcome in E as (Hv & Hf' & _ & Hne).
      split; [by rewrite Hf'|done].
Qed.


(** *** What a run writes to the trace *)

Lemma extends_trace_refl P st : extends_trace P st st.
Proof. exists []. by rewrite app_nil_r. Qed.

Lemma extends_trace_trans P s1 s2 s3 :
  extends_trace P s1 s2 -> extends_trace P s2 s3 -> extends_trace P s1 s3.
Proof.
  intros (t1 & H1 & F1) (t2 & H2 & F2). exists (t1 ++ t2).
  split; [by rewrite H2, H1, app_assoc|]. by apply Forall_app.
Qed.

Lemma ensures_bind {A B} P (m : M A) (k : A -> M B) :
  ensures (extends_trace P) m ->
  (forall a, ensures (extends_trace P) (k a)) ->
  ensures (extends_trace P) (x <- m ;; k x).
Proof.
  intros Hm Hk st r st'. unfold bind.
  destruct (m st) as [[a|] s1] eqn:E.
  - intros H. eapply extends_trace_trans; [by eapply Hm|by eapply Hk].
  - intros [= <- <-]. by eapply Hm.
Qed.

Lemma ensures_silent {A} P (m : M A) :
  (forall st, trace (m st).2 = trace st) -> ensures (extends_trace P) m.
Proof.
  intros H st r st' E. exists []. rewrite app_nil_r.
  split; [|done]. by rewrite <- (H st), E.
Qed.

Lemma ensures_emit P e : P e -> ensures (extends_trace P) (emit e).
Proof. intros He st r st' [= <- <-]. exists [e]. split; [done|]. by constructor. Qed.

Lemma ensures_when P b m :
  ensures (extends_trace P) m -> ensures (extends_trace P) (when b m).
Proof. destruct b; [done|]. intros _. by apply ensures_silent. Qed.

Lemma ensures_check P (b : bool) :
  ensures (extends_trace P) (if b then ret tt else reject).
Proof. destruct b; by apply ensures_silent. Qed.

Lemma ensures_goto P url :
  P (EvGoto url) -> ensures (extends_trace P) (goto web url).
Proof.
  intros H. unfold goto. apply ensures_bind; [by apply ensures_emit|].
  intros _. destruct (web url); by apply ensures_silent.
Qed.

Lemma ensures_waitForSelector P s :
  P (EvWaitForSelector s) -> ensures (extends_trace P) (waitForSelector s).
Proof.
  intros H. unfold waitForSelector.
  apply ensures_bind; [by apply ensures_emit|]. intros _.
  apply ensures_bind; [by apply ensures_silent|]. intros d.
  apply ensures_check.
Qed.

Lemma ensures_click P s :
  P (EvClick s) -> ensures (extends_trace P) (click s).
Proof.
  intros H. unfold click.
  apply ensures_bind; [by apply ensures_emit|]. intros _.
  apply ensures_bind; [by apply ensures_silent|]. intros d.
  apply ensures_check.
Qed.

Lemma ensures_evaluate {A} P (f : DOM -> A) :
  ensures (extends_trace P) (evaluate f).
Proof. by apply ensures_silent. Qed.

Lemma ensures_writeFileSync P path data :
  P (EvWriteFile path data) ->
  ensures (extends_trace P) (writeFileSync path data).
Proof.
  intros H st r st' [= <- <-]. exists [EvWriteFile path data].
  split; [done|]. by constructor.
Qed.

Lemma ensures_for_of {A} P (l : list A) (body : A -> M unit) :
  (forall x, ensures (extends_trace P) (body x)) ->
  ensures (extends_trace P) (for_of l body).
Proof.
  intros H. induction l as [|x l IH]; [by apply ensures_silent|].
  cbn [for_of]. apply ensures_bind; [apply H|]. by intros _.
Qed.

Lemma ensures_for_pages_from P n page (body : Z -> M unit) :
  (forall p, ensures (extends_trace P) (body p)) ->
  ensures (extends_trace P) (for_pages_from n page body).
Proof.
  intros H. revert page. induction n as [|n IH]; intros page;
    [by apply ensures_silent|].
  cbn [for_pages_from]. apply ensures_bind; [apply H|]. by intros _.
Qed.

Lemma ensures_download_pen pen T pensPath debug debugPath :
  ensures (extends_trace quiet)
    (download_pen web pen T pensPath debug debugPath).
Proof.
  unfold download_pen.
  apply ensures_bind; [by apply ensures_silent|]. intros _.
  apply ensures_bind; [by apply ensures_silent|]. intros [|].
  { by apply ensures_emit. }
  apply ensures_bind; [by apply ensures_emit|]. intros _.
  apply ensures_bind; [by apply ensures_goto|]. intros _.
  apply ensures_bind; [by apply ensures_when, ensures_emit|]. intros _.
  apply ensures_bind; [by apply ensures_waitForSelector|]. intros _.
  do 6 (apply ensures_bind; [by apply ensures_click|]; intros _).
  apply ensures_bind; [apply ensures_evaluate|]. intros content.
  apply ensures_bind; [apply ensures_evaluate|]. intros resources.
  apply ensures_bind; [by apply ensures_when, ensures_emit|]. intros _.
  apply ensures_bind; [by apply ensures_writeFileSync|]. intros _.
  by apply ensures_emit.
Qed.

Lemma ensures_download l T pensPath debug debugPath :
  ensures (extends_trace quiet) (download web l T pensPath debug debugPath).
Proof.
  unfold download. apply ensures_bind.
  - apply ensures_for_of. intros pen. apply ensures_download_pen.
  - intros _. by apply ensures_silent.
Qed.

Lemma ensures_batch l T pensPath debug debugPath IT :
  ensures (extends_trace quiet)
    (download web l T pensPath debug debugPath ;;;
     pens <- get_pens ;; saveIndex pens pensPath IT).
Proof.
  apply ensures_bind; [apply ensures_download|]. intros _.
  apply ensures_bind; [by apply ensures_silent|]. intros ps.
  by apply ensures_writeFileSync.
Qed.

(** X8: the browser is launched at most once in a run and closed exactly
    when the run returns normally, as its last action; a run that rejects
    never closes it.  A run that rejects before the launch (a template is
    missing) leaves the state as it was. *)
Theorem browser_closed_only_on_return o st r st' :
  run web querystring_stringify o st = (r, st') ->
  match r with
  | Ok _ =>
      exists tr,
        trace st' = trace st ++ [EvLaunch (negb (debug o))] ++ tr ++ [EvClose]
        /\ Forall quiet tr
  | Rejected =>
      st' = st
      \/ exists tr,
           trace st' = trace st ++ [EvLaunch (negb (debug o))] ++ tr
           /\ Forall quiet tr
  end.
Proof.
  unfold run. unfold bind at 1, readFileSync at 1.
  destruct (files st !! penTemplate o) as [T|]; [|intros [= <- <-]; by left].
  cbn [ret]. unfold bind at 1, readFileSync at 1.
  destruct (files st !! indexTemplate o) as [IT|]; [|intros [= <- <-]; by left].
  cbn [ret]. rewrite run_prologue.
  set (main := match links o with
               | Some l => _
               | None => _
               end).
  assert (ensures (extends_trace quiet) main) as Hmain.
  { subst main. destruct (links o) as [l|]; [apply ensures_batch|].
    apply ensures_for_pages_from. intros page.
    apply ensures_bind; [by apply ensures_emit|]. intros _.
    apply ensures_bind; [by apply ensures_goto|]. intros _.
    apply ensures_bind; [apply ensures_evaluate|]. intros l.
    apply ensures_batch. }
  unfold bind.
  destruct (main (started (debug o) st)) as [[[]|] s1] eqn:E;
    apply Hmain in E as (tr & Htr & Hq); intros [= <- <-];
    [|right]; cbn [trace emit snd started] in *.
  - exists ((if debug o then [EvSetViewport] else []) ++ tr). split.
    + rewrite Htr. by rewrite <- !app_assoc.
    + apply Forall_app. split; [|done]. destruct (debug o); by repeat constructor.
  - exists ((if debug o then [EvSetViewport] else []) ++ tr). split.
    + rewrite Htr. by rewrite <- !app_assoc.
    + apply Forall_app. split; [|done]. destruct (debug o); by repeat constructor.
Qed.

(** *** Runs on edge inputs *)

(** X9: the templates are read before anything else; when one of the two
    files is missing the run rejects with the state as it was: no browser
    is launched and nothing is written. *)
Theorem missing_template_rejects o st :
  files st !! penTemplate o = None \/ files st !! indexTemplate o = None ->
  run web querystring_stringify o st = (Rejected, st).
Proof.
  intros H. unfold run. unfold bind at 1, readFileSync at 1.
  destruct (files st !! penTemplate o) as [T|] eqn:HT; [|done].
  destruct H as [H|H]; [done|]. cbn [ret].
  unfold bind at 1, readFileSync at 1. by rewrite H.
Qed.

Lemma run_search_pages o st T IT :
  files st !! penTemplate o = Some T ->
  files st !! indexTemplate o = Some IT ->
  links o = None ->
  run web querystring_stringify o st
  = (for_pages (startPage o) (endPage o)
       (fun page =>
          log (MsgSearch (searchQuery o) page) ;;;
          goto web (searchUrl ++ cus "/?"
                    ++ querystring_stringify (searchQuery o) page) ;;;
          links <- evaluate evaluate_links ;;
          download web links T (pensPath o) (debug o) (debugPath o) ;;;
          pens <- get_pens ;;
          saveIndex pens (pensPath o) IT) ;;;
     emit EvClose) (started (debug o) st).
Proof.
  intros HT HIT Hl. unfold run.
  erewrite bind_Ok by (unfold readFileSync; by rewrite HT).
  erewrite bind_Ok by (unfold readFileSync; by rewrite HIT).
  by rewrite Hl, run_prologue.
Qed.

Lemma run_given_links o st T IT l :
  files st !! penTemplate o = Some T ->
  files st !! indexTemplate o = Some IT ->
  links o = Some l ->
  run web querystring_stringify o st
  = ((download web l T (pensPath o) (debug o) (debugPath o) ;;;
      pens <- get_pens ;; saveIndex pens (pensPath o) IT) ;;;
     emit EvClose) (started (debug o) st).
Proof.
  intros HT HIT Hl. unfold run.
  erewrite bind_Ok by (unfold readFileSync; by rewrite HT).
  erewrite bind_Ok by (unfold readFileSync; by rewrite HIT).
  by rewrite Hl, run_prologue.
Qed.

(** X10: with an empty page range (the last page before the first) a
    search run launches and closes the browser and does nothing else, so
    no index file is written; with an empty list of links the run still
    writes the index, rendered from no pen. *)
Theorem run_without_pens o st T IT :
  files st !! penTemplate o = Some T ->
  files st !! indexTemplate o = Some IT ->
  (links o = None -> (endPage o < startPage o)%Z ->
   run web querystring_stringify o st
   = (Ok tt, finished (started (debug o) st)))
  /\ (links o = Some [] ->
      run web querystring_stringify o st
      = (Ok tt, finished (indexed (pensPath o) IT (started (debug o) st)))
      /\ files (indexed (pensPath o) IT (started (debug o) st))
           !! index_path (pensPath o)
         = Some (String_replace IT TOK_list [])).
Proof.
  intros HT HIT. split.
  - intros Hl Hlt. rewrite (run_search_pages o st T IT) by done.
    unfold for_pages.
    replace (Z.to_nat (endPage o - startPage o + 1)) with 0%nat by lia.
    done.
  - intros Hl. split; [|cbn; by rewrite lookup_insert_eq].
    by rewrite (run_given_links o st T IT []).
Qed.

(** *** Runs over pens that are already saved *)

Lemma for_of_all_skipped l T pensPath debug debugPath st :
  (forall p, p ∈ l -> is_Some (files st !! pen_path pensPath p)) ->
  for_of l (fun pen => download_pen web pen T pensPath debug debugPath) st
  = (Ok tt, all_skipped pensPath l st).
Proof.
  revert st. induction l as [|p l IH]; intros st H.
  - unfold all_skipped. cbn. rewrite !app_nil_r. by destruct st.
  - cbn [for_of]. erewrite bind_Ok
      by (apply download_pen_skip, H; left).
    rewrite IH by (intros q Hq; cbn; apply H; by right).
    unfold all_skipped, skipped. cbn. by rewrite <- !app_assoc.
Qed.

Lemma navigations_app t1 t2 :
  navigations (t1 ++ t2) = navigations t1 ++ navigations t2.
Proof. apply omap_app. Qed.

Lemma navigations_skips pensPath l :
  navigations (map (fun p => EvLog (MsgAlreadySaved (pen_path pensPath p))) l)
  = [].
Proof. induction l as [|p l IH]; [done|]. by simpl. Qed.

(** X11: a run over links whose files all exist extracts nothing: it
    returns, the browser never navigates, the page is as before, the only
    file written is the index (rendered from the whole list), and the
    collection is the list. *)
Theorem saved_pens_are_not_extracted o st T IT l :
  files st !! penTemplate o = Some T ->
  files st !! indexTemplate o = Some IT ->
  links o = Some l ->
  (forall p, p ∈ l -> is_Some (files st !! pen_path (pensPath o) p)) ->
  exists st',
    run web querystring_stringify o st = (Ok tt, st')
    /\ files st' = <[index_path (pensPath o) := render_index IT l]> (files st)
    /\ pens st' = l
    /\ document st' = document st
    /\ navigations (trace st') = navigations (trace st).
Proof.
  intros HT HIT Hl Hall.
  exists (finished (indexed (pensPath o) IT
                      (all_skipped (pensPath o) l (started (debug o) st)))).
  split.
  { apply (run_links web querystring_stringify o st T IT l); try done.
    by apply for_of_all_skipped. }
  cbn. repeat split.
  rewrite !navigations_app, navigations_skips.
  destruct (debug o); cbn; by rewrite !app_nil_r.
Qed.

Lemma run_given_links_returned o st T IT l st1 :
  files st !! penTemplate o = Some T ->
  files st !! indexTemplate o = Some IT ->
  links o = Some l ->
  run web querystring_stringify o st = (Ok tt, st1) ->
  exists s1,
    for_of l (fun pen => download_pen web pen T (pensPath o) (debug o)
                           (debugPath o)) (started (debug o) st)
    = (Ok tt, s1)
    /\ st1 = finished (indexed (pensPath o) IT s1).
Proof.
  intros HT HIT Hl. rewrite (run_given_links o st T IT l) by done.
  unfold download. unfold bind at 1 2 3.
  destruct (for_of l _ _) as [[[]|] s1] eqn:E; [|done].
  cbn. intros [= <-]. eauto.
Qed.

(** X12: running again over the same links after a run that returned
    (with the two templates unchanged) extracts nothing and changes no
    file: the second run returns with the file store of the first and
    without a single navigation. *)
Theorem second_run_changes_nothing o st T IT l st1 :
  links o = Some l ->
  files st !! penTemplate o = Some T ->
  files st !! indexTemplate o = Some IT ->
  run web querystring_stringify o st = (Ok tt, st1) ->
  files st1 !! penTemplate o = Some T ->
  files st1 !! indexTemplate o = Some IT ->
  exists st2,
    run web querystring_stringify o st1 = (Ok tt, st2)
    /\ files st2 = files st1
    /\ pens st2 = l
    /\ navigations (trace st2) = navigations (trace st1).
Proof.
  intros Hl HT HIT Hrun HT1 HIT1.
  destruct (run_given_links_returned o st T IT l st1 HT HIT Hl Hrun)
    as (s1 & Hfor & ->).
  apply for_of_outcome in Hfor as (Hk & Hp & Hall).
  cbn [pens started] in Hp.
  destruct (saved_pens_are_not_extracted o
              (finished (indexed (pensPath o) IT s1)) T IT l)
    as (st2 & Hrun2 & Hf & Hp2 & _ & Hn); try done.
  { intros p Hp'. cbn [files finished indexed].
    destruct (decide (index_path (pensPath o) = pen_path (pensPath o) p))
      as [<-|Hne]; [rewrite lookup_insert_eq; eauto|].
    rewrite lookup_insert_ne by done. by apply Hall. }
  exists st2. split; [done|]. split; [|done].
  rewrite Hf. cbn [files finished indexed]. rewrite Hp.
  by rewrite insert_insert_eq.
Qed.

(** *** Runs that return *)




Section SearchRun.

Variable o : Options.
Variables T IT : jsstring.

Local Abbreviation search_body :=
  (fun page =>
     log (MsgSearch (searchQuery o) page) ;;;
     goto web (searchUrl ++ cus "/?"
               ++ querystring_stringify (searchQuery o) page) ;;;
     links <- evaluate evaluate_links ;;
     download web links T (pensPath o) (debug o) (debugPath o) ;;;
     pens <- get_pens ;;
     saveIndex pens (pensPath o) IT).


End SearchRun.



(** *** The debug mode of [index.js] *)




End Outcomes.

(** ** Instances of the run theorems on the sample site *)



Lemma browser_closed_only_on_return_witness :
  let o := sample_options (Some [grid_pen]) in
  let m := run (sample_web [] []) sample_stringify o in
  let st := initial sample_files in
  exists tr,
    trace (m st).2 = trace st ++ [EvLaunch true] ++ tr ++ [EvClose]
    /\ Forall quiet tr.
Proof.
  intros o m st.
  assert (E : m st = (Ok tt, (m st).2)) by (vm_compute; reflexivity).
  exact (browser_closed_only_on_return (sample_web [] []) sample_stringify o
           st (Ok tt) (m st).2 E).
Defined.

Lemma missing_template_rejects_witness :
  run (sample_web [] []) sample_stringify (sample_options (Some [grid_pen]))
    (initial ∅)
  = (Rejected, initial ∅).
Proof.
  apply missing_template_rejects. left. reflexivity.
Defined.

Lemma run_without_pens_witness :
  let o := sample_options (Some []) in
  let st := initial sample_files in
  run (sample_web [] []) sample_stringify o st
  = (Ok tt, finished (indexed (cus "pens/") sample_index_template
                        (started false st)))
  /\ files (indexed (cus "pens/") sample_index_template (started false st))
       !! cus "pens/index.html"
     = Some (cus "<nav></nav>").
Proof.
  intros o st.
  destruct (run_without_pens (sample_web [] []) sample_stringify o st
              sample_pen_template sample_index_template)
    as [_ H]; [reflexivity|reflexivity|].
  destruct (H eq_refl) as [H1 H2]. split; [exact H1|].
  etransitivity; [exact H2|]. vm_compute. reflexivity.
Defined.

Lemma saved_pens_are_not_extracted_witness :
  let o := sample_options (Some [first_masonry; second_masonry]) in
  let st := initial (<[cus "pens/flexbox-masonry.html" := cus "<html></html>"]>
                       sample_files) in
  exists st',
    run (sample_web [] []) sample_stringify o st = (Ok tt, st')
    /\ pens st' = [first_masonry; second_masonry]
    /\ navigations (trace st') = [].
Proof.
  intros o st.
  destruct (saved_pens_are_not_extracted (sample_web [] []) sample_stringify
              o st sample_pen_template sample_index_template
              [first_masonry; second_masonry])
    as (st' & Hrun & _ & Hp & _ & Hn); [reflexivity|reflexivity|reflexivity| |].
  - intros p Hp. apply list_elem_of_In in Hp.
    destruct Hp as [<-|[<-|[]]]; eexists; vm_compute; reflexivity.
  - exists st'. auto.
Defined.

Lemma second_run_changes_nothing_witness :
  let o := sample_options (Some [grid_pen]) in
  let m := run (sample_web [] []) sample_stringify o in
  let st1 := (m (initial sample_files)).2 in
  exists st2,
    m st1 = (Ok tt, st2)
    /\ files st2 = files st1
    /\ navigations (trace st2) = navigations (trace st1).
Proof.
  intros o m st1.
  destruct (second_run_changes_nothing (sample_web [] []) sample_stringify o
              (initial sample_files) sample_pen_template sample_index_template
              [grid_pen] st1)
    as (st2 & Hrun & Hf & _ & Hn).
  - reflexivity.
  - reflexivity.
  - reflexivity.
  - vm_compute. reflexivity.
  - vm_compute. reflexivity.
  - vm_compute. reflexivity.
  - exists st2. auto.
Defined.



